(** * granada: HTTP session layer

    A shallow embedding of
      - src/granada/http/session/session.cc            (Session)
      - src/granada/http/session/simple_session.cc     (SimpleSession)
      - src/granada/http/session/storage_session.cc    (StorageSession)
      - src/granada/http/session/shared_map_session_handler.cc
      - Release/src/granada/http/parser.cpp            (ParseQueryString)
      - include/granada/http/session/session.h
    and the properties of the session lifecycle proved over it.

    Conventions.  [std::string] is [string]; [long] and [std::time_t] are
    [Z]; the handler's [std::unordered_map<std::string, shared_ptr<Session>>]
    is a [gmap string Session]; [this] is passed in and returned; the value
    of [std::time(nullptr)] is the parameter [now]; virtual dispatch on the
    session class is the parameter [k : variant]. *)

From Stdlib Require Import ZArith Ascii String List Bool Lia.
From stdpp Require Import base option list strings gmap fin_maps.

Local Open Scope string_scope.
Local Open Scope Z_scope.

(** ** Constants of granada/defaults.h *)

(** granada/defaults.h is not part of the sources; the constants of it that
    the session code names are given the values of the specification's
    table of configuration keys. *)

Module entity_keys.

(** Modelled from the spec: the configuration key under which the token
    support is looked up. *)
Definition session_token_support : string := "session_token_support".

(** Modelled from the spec: the token support [cookie]. *)
Definition session_cookie : string := "cookie".

(** Modelled from the spec: the token support [query]. *)
Definition session_query : string := "query".

(** Modelled from the spec: the token support [json]. *)
Definition session_json : string := "json".

(** Modelled from the spec: the header that carries the token back, as in
    [Set-Cookie: {token_label}={token}; path=/]. *)
Definition session_set_cookie : string := "Set-Cookie".

End entity_keys.

Module default_strings.

(** Modelled from the spec: the second, context dependent, fallback of the
    token support is [query]. *)
Definition session_second_token_support : string := "query".

End default_strings.

(** ** Data model (session.h) *)

(** The protected data members of [class Session]. *)
Record Session : Type := mkSession {
  token_ : string;
  update_time_ : Z;
  token_label_ : string;
  session_token_support_ : string;
  session_timeout_ : Z
}.

(** The dynamic class of a session object.  [BaseSession] stands for an
    object that runs [Session::Update] as defined in session.cc. *)
Inductive variant : Type := BaseSession | SimpleSession | StorageSession.

(** What the collaborators of [Session::Close] are asked to do:
    [close_callbacks()->CallAll(to_json())], carrying the state of the
    session that is serialised, and [roles()->RemoveAll()]. *)
Inductive event : Type :=
| CallAll (state : Session)
| RemoveAll.

(** The world a session lives in: the map of its handler, the position in
    the nonce sequence of the handler's generator, and the calls received
    so far by the collaborators. *)
Record World : Type := mkWorld {
  sessions_ : gmap string Session;
  n_generator_ : nat -> string;
  n_generated : nat;
  trace : list event
}.

Definition with_sessions (m : gmap string Session) (w : World) : World :=
  mkWorld m (n_generator_ w) (n_generated w) (trace w).

(** [std::string::empty]. *)
Definition str_empty (s : string) : bool := String.eqb s "".

Definition SetToken (token : string) (s : Session) : Session :=
  mkSession token (update_time_ s) (token_label_ s)
            (session_token_support_ s) (session_timeout_ s).

Definition SetUpdateTime (t : Z) (s : Session) : Session :=
  mkSession (token_ s) t (token_label_ s)
            (session_token_support_ s) (session_timeout_ s).

Definition SetTokenSupport (sup : string) (s : Session) : Session :=
  mkSession (token_ s) (update_time_ s) (token_label_ s)
            sup (session_timeout_ s).

(** [Session::set(Session* session)]: [( *this) = ( *session)], the
    member-wise copy of the five data members. *)
Definition Session_set (session this : Session) : Session :=
  mkSession (token_ session) (update_time_ session) (token_label_ session)
            (session_token_support_ session) (session_timeout_ session).

(** ** Time-outs (session.cc, lines 175-194) *)

(** Modelled from the spec: granada/util/time.h is not part of the sources.
    [is_timedout(update_time, timeout, extra)] holds when
    [(now - update_time) > timeout + extra]. *)
Definition is_timedout (now update_time timeout extra_seconds : Z) : bool :=
  (timeout + extra_seconds <? now - update_time).

Definition IsTimedOut_extra (now : Z) (s : Session) (extra_seconds : Z) : bool :=
  if session_timeout_ s <? 0 then false
  else is_timedout now (update_time_ s) (session_timeout_ s) extra_seconds.

Definition IsTimedOut (now : Z) (s : Session) : bool := IsTimedOut_extra now s 0.

Definition IsValid (now : Z) (s : Session) : bool := negb (IsTimedOut now s).

Definition IsGarbage (now : Z) (s : Session) : bool := negb (IsValid now s).

(** ** SharedMapSessionHandler (shared_map_session_handler.cc)

    The mutex is held around every access to the map and plays no part in
    a sequential execution; the functions below are the map operations. *)

Module SharedMapSessionHandler.

Definition SessionExists (token : string) (m : gmap string Session) : bool :=
  if str_empty token then false
  else match m !! token with
       | Some _ => true
       | None => false
       end.

Definition GenerateToken (w : World) : string * World :=
  (n_generator_ w (n_generated w),
   mkWorld (sessions_ w) (n_generator_ w) (S (n_generated w)) (trace w)).

Definition LoadSession (now : Z) (token : string) (m : gmap string Session)
    (virgin : Session) : Session :=
  if str_empty token then virgin
  else match m !! token with
       | Some session =>
           if IsValid now session then Session_set session virgin else virgin
       | None => virgin
       end.

Definition SaveSession (session : Session) (m : gmap string Session)
    : gmap string Session :=
  let token := token_ session in
  if str_empty token then m else <[token := session]> m.

Definition DeleteSession (session : Session) (m : gmap string Session)
    : gmap string Session :=
  let token := token_ session in
  if str_empty token then m else delete token m.

End SharedMapSessionHandler.

(** ** Session life cycle (session.cc, simple_session.cc, storage_session.cc) *)

(** [Session::Update] sets the update time; the call that saves the session
    is commented out there.  [SimpleSession::Update] and
    [StorageSession::Update] set the update time, copy [*this] into a fresh
    object and hand the copy to [SaveSession]. *)
Definition Update (k : variant) (now : Z) (this : Session) (w : World)
    : Session * World :=
  let this' := SetUpdateTime now this in
  match k with
  | BaseSession => (this', w)
  | SimpleSession | StorageSession =>
      (this', with_sessions
                (SharedMapSessionHandler.SaveSession this' (sessions_ w)) w)
  end.

(** [Session::Close]; [SimpleSession::Close] forwards to it. *)
Definition Close (this : Session) (w : World) : World :=
  mkWorld (SharedMapSessionHandler.DeleteSession this (sessions_ w))
          (n_generator_ w) (n_generated w)
          (trace w ++ [CallAll this; RemoveAll]).

(** [Session::Open] calls itself when the generated token is taken; [fuel]
    bounds the number of activations, [None] is an exhausted bound. *)
Fixpoint Open (fuel : nat) (k : variant) (now : Z) (this : Session) (w : World)
    : option (Session * World) :=
  match fuel with
  | O => None
  | S fuel' =>
      let w1 := Close this w in
      let '(token, w2) := SharedMapSessionHandler.GenerateToken w1 in
      let this1 := SetToken token this in
      if SharedMapSessionHandler.SessionExists token (sessions_ w2)
      then Open fuel' k now this1 w2
      else Some (Update k now this1 w2)
  end.

(** [Session::LoadSession(const std::string& token)]. *)
Definition LoadSession (k : variant) (now : Z) (token : string)
    (this : Session) (w : World) : bool * Session * World :=
  if str_empty token then (false, this, w)
  else
    let this1 := SharedMapSessionHandler.LoadSession now token (sessions_ w) this in
    if str_empty (token_ this1) then (false, this1, w)
    else let '(this2, w2) := Update k now this1 w in (true, this2, w2).

(** [SharedMapSessionHandler::CleanSessions()]: the scan collects the stored
    sessions that are garbage, in the iteration order of the map, and
    [Close] is then called on each of them.  The iteration order of a
    [std::unordered_map] is not specified; [map_to_list] gives one
    enumeration of the entries, and [close_all] below is the second loop for
    the sessions collected in any order. *)
Definition sessions_to_erase (now : Z) (m : gmap string Session) : list Session :=
  List.filter (IsGarbage now) (snd <$> map_to_list m).

Definition CleanSessions (now : Z) (w : World) : World :=
  fold_left (fun w' session => Close session w') (sessions_to_erase now (sessions_ w)) w.

(** The second loop of [CleanSessions()] (lines 144-146), on the sessions
    that the scan collected, in the order in which it collected them. *)
Definition close_all (collected : list Session) (w : World) : World :=
  fold_left (fun w' session => Close session w') collected w.

(** ** Requests and responses

    The parts of cpprest's [http_request] and [http_response] that the
    session layer reads and writes. *)

(** [web::json::value]. *)
#[local] Unset Elimination Schemes.
Inductive json_value : Type :=
| JNull
| JBool (b : bool)
| JNumber (z : Z)
| JString (s : string)
| JArray (items : list json_value)
| JObject (fields : list (string * json_value)).
#[local] Set Elimination Schemes.

(** [body_json = None]: [extract_json().get()] throws. *)
Record http_request : Type := mkRequest {
  cookie_header : option string;
  relative_uri_query : string;
  body_json : option json_value
}.

(** The header fields of an [http_response], by name. *)
Record http_response : Type := mkResponse {
  headers : gmap string string
}.

(** [http_headers::add]: a value added to a field that has one already is
    appended to it after a comma. *)
Definition headers_add (name value : string) (r : http_response) : http_response :=
  match headers r !! name with
  | Some old =>
      if str_empty old then mkResponse (<[name := value]> (headers r))
      else mkResponse (<[name := old ++ ", " ++ value]> (headers r))
  | None => mkResponse (<[name := value]> (headers r))
  end.

Fixpoint field_at (name : string) (fields : list (string * json_value))
    : option json_value :=
  match fields with
  | [] => None
  | (key, v) :: rest => if String.eqb key name then Some v else field_at name rest
  end.

(** Modelled from the spec: granada/util/string.h is not part of the
    sources.  [split(s, delim, elems)] appends to [elems] the items of [s]
    that [delim] separates, read one after the other the way [std::getline]
    does: an item ends at a delimiter or at the end of [s], and nothing is
    read once [s] is used up, so [s] ending in a delimiter has no empty last
    item.  [item] is the item being read. *)
Fixpoint split_from (delim : ascii) (s : string) (item : string) : list string :=
  match s with
  | EmptyString => if str_empty item then [] else [item]
  | String c rest =>
      if Ascii.eqb c delim then item :: split_from delim rest ""
      else split_from delim rest (item ++ String c "")
  end.

(** Modelled from the spec: [granada::util::string::split(s, delim, elems)],
    of granada/util/string.h, with [elems] empty before the call. *)
Definition split (s : string) (delim : ascii) : list string :=
  split_from delim s "".

(** [DEFAULT_SESSIONS_TOKEN_SUPPORT] (session.cc, line 31). *)
Definition DEFAULT_SESSIONS_TOKEN_SUPPORT : list string :=
  [entity_keys.session_token_support;
   default_strings.session_second_token_support].

(** The [while (len--)] loop of [Session::LoadSession(http_request&)]
    (session.cc, lines 102-110): the result is the token handed to
    [LoadSession(token)], if the loop gets to that call. *)
Fixpoint scan_keys_and_values (token_label : string)
    (keys_and_values : list string) (len : nat) : option string :=
  match len with
  | O => None
  | S len' =>
      let key_and_value := split (nth len' keys_and_values "") "=" in
      if (1 <? length key_and_value)%nat
         && String.eqb (nth 0 key_and_value "") token_label
      then Some (nth 1 key_and_value "")
      else scan_keys_and_values token_label keys_and_values len'
  end.

(** [Session::LoadSession(web::http::http_request&)]. *)
Definition LoadSession_request (k : variant) (now : Z) (request : http_request)
    (this : Session) (w : World) : bool * Session * World :=
  let this0 :=
    if str_empty (session_token_support_ this)
    then SetTokenSupport (nth 1 DEFAULT_SESSIONS_TOKEN_SUPPORT "") this
    else this in
  if String.eqb (session_token_support_ this0) entity_keys.session_json then
    match body_json request with
    | Some (JObject fields) =>
        match field_at (token_label_ this0) fields with
        | Some (JString token) => LoadSession k now token this0 w
        | _ => (false, this0, w)
        end
    | _ => (false, this0, w)
    end
  else if String.eqb (session_token_support_ this0) entity_keys.session_query then
    let keys_and_values := split (relative_uri_query request) "&" in
    match scan_keys_and_values (token_label_ this0) keys_and_values
            (length keys_and_values) with
    | Some token => LoadSession k now token this0 w
    | None => (false, this0, w)
    end
  else (false, this0, w).

(** [Session::Open(web::http::http_response&)]. *)
Definition Open_response (fuel : nat) (k : variant) (now : Z)
    (response : http_response) (this : Session) (w : World)
    : option (Session * World * http_response) :=
  match Open fuel k now this w with
  | None => None
  | Some (this1, w1) =>
      if String.eqb (session_token_support_ this1) entity_keys.session_cookie
      then Some (this1, w1,
                 headers_add entity_keys.session_set_cookie
                   (token_label_ this1 ++ "=" ++ token_ this1 ++ "; path=/")
                   response)
      else Some (this1, w1, response)
  end.

(** ** Cookies and query strings (parser.cpp) *)

(** [std::unordered_map::insert]: an element whose key is there already is
    not inserted. *)
Definition map_insert_new (key value : string) (m : gmap string string)
    : gmap string string :=
  match m !! key with
  | Some _ => m
  | None => <[key := value]> m
  end.

(** [std::search] for the one-character delimiter ["="]: what stands before
    its first occurrence and what stands after it. *)
Fixpoint search_delimiter (s : string) : option (string * string) :=
  match s with
  | EmptyString => None
  | String c rest =>
      if Ascii.eqb c "="%char then Some ("", rest)
      else match search_delimiter rest with
           | Some (name, content) => Some (String c name, content)
           | None => None
           end
  end.

Section ParseCookies.

(** [granada::util::string::trim], of granada/util/string.h, is not part
    of the sources. *)
Variable trim : string -> string.

(** One round of the [std::getline] loop of [ParseCookies].  Without a
    ["="] in the cookie the content is built from an iterator past the
    end of the string; there is no result then. *)
Definition parse_cookie (cookies : option (gmap string string))
    (cookie_name_and_content : string) : option (gmap string string) :=
  match cookies with
  | None => None
  | Some m =>
      match search_delimiter (trim cookie_name_and_content) with
      | Some (cookie_name, cookie_content) =>
          Some (map_insert_new cookie_name cookie_content m)
      | None => None
      end
  end.

Definition ParseCookies (request : http_request) : option (gmap string string) :=
  match cookie_header request with
  | None => Some ∅
  | Some cookies_str => fold_left parse_cookie (split cookies_str ";") (Some ∅)
  end.

(** [Session::LoadSession(web::http::http_request&, web::http::http_response&)].
    [None]: the bound of [Open] is exhausted, or [ParseCookies] has no
    result. *)
Definition LoadSession_request_response (fuel : nat) (k : variant) (now : Z)
    (request : http_request) (response : http_response)
    (this : Session) (w : World)
    : option (bool * Session * World * http_response) :=
  let this0 :=
    if str_empty (session_token_support_ this)
    then SetTokenSupport (nth 0 DEFAULT_SESSIONS_TOKEN_SUPPORT "") this
    else this in
  if String.eqb (session_token_support_ this0) entity_keys.session_cookie then
    match ParseCookies request with
    | None => None
    | Some cookies =>
        let '(session_exists, this1, w1) :=
          match cookies !! token_label_ this0 with
          | Some token => LoadSession k now token this0 w
          | None => (false, this0, w)
          end in
        if session_exists then Some (true, this1, w1, response)
        else match Open_response fuel k now response this1 w1 with
             | Some (this2, w2, response2) => Some (true, this2, w2, response2)
             | None => None
             end
    end
  else
    let '(found, this1, w1) := LoadSession_request k now request this0 w in
    Some (found, this1, w1, response).

End ParseCookies.

(** [hex_char_digit_to_decimal_char] of cpprest. *)
Definition hex_digit (c : ascii) : option nat :=
  let n := nat_of_ascii c in
  if ((48 <=? n) && (n <=? 57))%nat then Some (n - 48)%nat
  else if ((97 <=? n) && (n <=? 102))%nat then Some (n - 87)%nat
  else if ((65 <=? n) && (n <=? 70))%nat then Some (n - 55)%nat
  else None.

(** [web::uri::decode] of cpprest: ["%"] and the two hexadecimal digits after
    it become one character; [None] is the [uri_exception] thrown for a
    malformed escape or a character outside ASCII. *)
Fixpoint uri_decode (encoded : string) : option string :=
  match encoded with
  | EmptyString => Some ""
  | String c rest =>
      if Ascii.eqb c "%"%char then
        match rest with
        | String h (String l rest') =>
            match hex_digit h, hex_digit l, uri_decode rest' with
            | Some a, Some b, Some tail =>
                Some (String (ascii_of_nat (16 * a + b)) tail)
            | _, _, _ => None
            end
        | _ => None
        end
      else if (127 <? nat_of_ascii c)%nat then None
      else match uri_decode rest with
           | Some tail => Some (String c tail)
           | None => None
           end
  end.

(** The [while (len--)] loop of [ParseQueryString] (parser.cpp, 63-69). *)
Fixpoint parse_keys_and_values (keys_and_values : list string) (len : nat)
    (parsed_query : gmap string string) : option (gmap string string) :=
  match len with
  | O => Some parsed_query
  | S len' =>
      let key_and_value := split (nth len' keys_and_values "") "=" in
      if (1 <? length key_and_value)%nat then
        match uri_decode (nth 1 key_and_value "") with
        | Some value =>
            parse_keys_and_values keys_and_values len'
              (map_insert_new (nth 0 key_and_value "") value parsed_query)
        | None => None
        end
      else parse_keys_and_values keys_and_values len' parsed_query
  end.

(** [parser::ParseQueryString]; [None]: [web::uri::decode] throws. *)
Definition ParseQueryString (query_string : string) : option (gmap string string) :=
  if str_empty query_string then Some ∅
  else
    let keys_and_values := split query_string "&" in
    parse_keys_and_values keys_and_values (length keys_and_values) ∅.

(** ** The invariant of the handler's map *)

(** No session is stored under the empty token, a session is stored under
    its own token, and a token is the key of at most one entry. *)
Definition store_inv (m : gmap string Session) : Prop :=
  m !! "" = None
  /\ (forall token session, m !! token = Some session -> token_ session = token)
  /\ NoDup (fst <$> map_to_list m).

(** The maps that the operations of the handler make from the empty map of
    its constructor. *)
Inductive reachable : gmap string Session -> Prop :=
| reachable_new : reachable ∅
| reachable_SaveSession (session : Session) (m : gmap string Session) :
    reachable m -> reachable (SharedMapSessionHandler.SaveSession session m)
| reachable_DeleteSession (session : Session) (m : gmap string Session) :
    reachable m -> reachable (SharedMapSessionHandler.DeleteSession session m)
| reachable_CleanSessions (now : Z) (w : World) :
    reachable (sessions_ w) -> reachable (sessions_ (CleanSessions now w)).

(** The map of the handler after [DeleteSession] on each session of a list. *)
Definition delete_all (l : list Session) (m : gmap string Session)
    : gmap string Session :=
  fold_left (fun m' session => SharedMapSessionHandler.DeleteSession session m') l m.

(** ** The token of the query flow *)

(** The value of one ["key=value"] pair of a query string, when the pair
    has a value and its key is [token_label]: the second item of the pair
    split at ["="], as it stands in the query string. *)
Definition token_of_pair (token_label pair : string) : option string :=
  let key_and_value := split pair "=" in
  if (1 <? length key_and_value)%nat
     && String.eqb (nth 0 key_and_value "") token_label
  then Some (nth 1 key_and_value "")
  else None.

(** The token that the query flow of [LoadSession(request)] hands to
    [LoadSession(token)]. *)
Definition query_token (token_label query : string) : option string :=
  let keys_and_values := split query "&" in
  scan_keys_and_values token_label keys_and_values (length keys_and_values).

(** The token of a query string read the other way: the value under
    [token_label] among the percent-decoded parameters, which is what
    [ParseQueryString] gives. *)
Definition decoded_query_token (token_label query : string) : option string :=
  match ParseQueryString query with
  | Some parsed_query => parsed_query !! token_label
  | None => None
  end.

(** The query flow, were its token the percent-decoded one. *)
Definition query_flow_decodes (k : variant) (now : Z) (request : http_request)
    (this : Session) (w : World) : Prop :=
  LoadSession_request k now request this w
  = match decoded_query_token (token_label_ this) (relative_uri_query request) with
    | Some token => LoadSession k now token this w
    | None => (false, this, w)
    end.

(** ** The last occurrence of a key in a query string *)

(** The key of a pair of a query string: what stands before its first
    ["="], and the whole pair when it has none. *)
Definition key_of_pair (pair : string) : string :=
  match search_delimiter pair with
  | Some (key, _) => key
  | None => pair
  end.

(** The value of a pair: what stands after its first ["="], and nothing
    when it has none. *)
Definition value_of_pair (pair : string) : string :=
  match search_delimiter pair with
  | Some (_, value) => value
  | None => ""
  end.

(** The value of the last of the pairs whose key is [token_label]; [found]
    is the value of the last such pair met so far. *)
Fixpoint last_occurrence (token_label : string) (pairs : list string)
    (found : option string) : option string :=
  match pairs with
  | [] => found
  | key_and_value :: rest =>
      last_occurrence token_label rest
        (if String.eqb (key_of_pair key_and_value) token_label
         then Some (value_of_pair key_and_value) else found)
  end.

(** The query flow, were its token the value of the last occurrence of the
    key [token_label] in the query string. *)
Definition query_flow_uses_last_occurrence (k : variant) (now : Z)
    (request : http_request) (this : Session) (w : World) : Prop :=
  LoadSession_request k now request this w
  = match last_occurrence (token_label_ this)
            (split (relative_uri_query request) "&") None with
    | Some token => LoadSession k now token this w
    | None => (false, this, w)
    end.

(** ** The cookie of a name *)

(** The content of the first item of a cookie header, among the items that
    [";"] separates, whose name is [name]. *)
Fixpoint first_cookie (trim : string -> string) (name : string)
    (items : list string) : option string :=
  match items with
  | [] => None
  | item :: rest =>
      match search_delimiter (trim item) with
      | Some (cookie_name, cookie_content) =>
          if String.eqb cookie_name name then Some cookie_content
          else first_cookie trim name rest
      | None => first_cookie trim name rest
      end
  end.

(** ** What is expected of [LoadSession(token)]

    The call succeeds exactly when the map holds a session for [token] that
    is valid; the instance then adopts that session and [Update] is called;
    when the call fails, the instance and the world are as they were. *)
Definition LoadSession_expected (k : variant) (now : Z) (token : string)
    (this : Session) (w : World) : Prop :=
  match LoadSession k now token this w with
  | (found, this', w') =>
      (found = true
       <-> exists snapshot,
             sessions_ w !! token = Some snapshot /\ IsValid now snapshot = true)
      /\ (forall snapshot,
            sessions_ w !! token = Some snapshot -> IsValid now snapshot = true ->
            (this', w') = Update k now (Session_set snapshot this) w)
      /\ (found = false -> this' = this /\ w' = w)
  end.

(** ** Sample data

    The sessions, maps and generators at which the properties below are
    evaluated. *)

Definition sample_session (token : string) (update_time : Z) : Session :=
  mkSession token update_time "token" "cookie" 5.

(** A generator that yields ["T"] first and ["U"] from then on. *)
Definition sample_generator (n : nat) : string :=
  match n with
  | O => "T"
  | S _ => "U"
  end.

Definition sample_world (m : gmap string Session) : World :=
  mkWorld m sample_generator 0 [].

(** A map with the one session ["T"], last updated at time 10. *)
Definition one_session : gmap string Session :=
  SharedMapSessionHandler.SaveSession (sample_session "T" 10) ∅.

(** A map with the sessions ["A"], last updated at time 0, and ["B"], last
    updated at time 99. *)
Definition two_sessions : gmap string Session :=
  SharedMapSessionHandler.SaveSession (sample_session "B" 99)
    (SharedMapSessionHandler.SaveSession (sample_session "A" 0) ∅).

(** A session whose token support has not been configured. *)
Definition unconfigured_session : Session := mkSession "" 0 "token" "" 5.

(** A session of the query flow. *)
Definition query_session (token_label : string) : Session :=
  mkSession "" 0 token_label "query" 5.

(** A request that carries the query string [query] and nothing else. *)
Definition query_request (query : string) : http_request :=
  mkRequest None query None.

(** * Properties *)

Lemma str_empty_true (s : string) : str_empty s = true <-> s = "".
Proof. unfold str_empty. apply String.eqb_eq. Qed.

Lemma str_empty_false (s : string) : str_empty s = false <-> s <> "".
Proof. unfold str_empty. apply String.eqb_neq. Qed.

Ltac case_empty s :=
  let E := fresh "Hempty" in
  destruct (str_empty s) eqn:E;
  [apply str_empty_true in E | apply str_empty_false in E].

(** ** Time-outs *)

Lemma IsTimedOut_extra_true (now : Z) (s : Session) (extra_seconds : Z) :
  IsTimedOut_extra now s extra_seconds = true
  <-> 0 <= session_timeout_ s
      /\ now - update_time_ s > session_timeout_ s + extra_seconds.
Proof.
  unfold IsTimedOut_extra, is_timedout.
  destruct (Z.ltb_spec (session_timeout_ s) 0) as [Hneg | Hpos].
  - split; [discriminate | lia].
  - rewrite Z.ltb_lt. lia.
Qed.

(** C5.  [IsValid] is the negation of [IsTimedOut(0)] and [IsGarbage] the
    negation of [IsValid]; [IsTimedOut(extra_seconds)] is true exactly when
    the time-out is not negative and more than
    [session_timeout + extra_seconds] seconds have passed since the last
    update, so it is false for every negative time-out; with a time-out of
    5 seconds a session updated 6 seconds ago is timed out and one updated
    4 seconds ago is not. *)
Theorem timeout_predicates (now : Z) (s : Session) (extra_seconds : Z) :
  IsValid now s = negb (IsTimedOut_extra now s 0)
  /\ IsGarbage now s = negb (IsValid now s)
  /\ (IsTimedOut_extra now s extra_seconds = true
      <-> 0 <= session_timeout_ s
          /\ now - update_time_ s > session_timeout_ s + extra_seconds)
  /\ (session_timeout_ s < 0 -> IsTimedOut_extra now s extra_seconds = false)
  /\ IsTimedOut_extra now
       (mkSession (token_ s) (update_time_ s) (token_label_ s)
                  (session_token_support_ s) (-1)) extra_seconds = false
  /\ IsTimedOut_extra now
       (mkSession (token_ s) (now - 6) (token_label_ s)
                  (session_token_support_ s) 5) 0 = true
  /\ IsTimedOut_extra now
       (mkSession (token_ s) (now - 4) (token_label_ s)
                  (session_token_support_ s) 5) 0 = false.
Proof.
  split; [reflexivity |]. split; [reflexivity |].
  split; [apply IsTimedOut_extra_true |].
  split.
  { intros Hneg. apply not_true_is_false. rewrite IsTimedOut_extra_true. lia. }
  split; [reflexivity |].
  split.
  - apply IsTimedOut_extra_true. simpl. lia.
  - apply not_true_is_false. rewrite IsTimedOut_extra_true. simpl. lia.
Qed.

(** ** The handler's map *)

Lemma SaveSession_empty (session : Session) (m : gmap string Session) :
  token_ session = "" -> SharedMapSessionHandler.SaveSession session m = m.
Proof.
  intros H. unfold SharedMapSessionHandler.SaveSession. now rewrite H.
Qed.

Lemma SaveSession_insert (session : Session) (m : gmap string Session) :
  token_ session <> "" ->
  SharedMapSessionHandler.SaveSession session m = <[token_ session := session]> m.
Proof.
  intros H. unfold SharedMapSessionHandler.SaveSession.
  apply str_empty_false in H. now rewrite H.
Qed.

Lemma DeleteSession_empty (session : Session) (m : gmap string Session) :
  token_ session = "" -> SharedMapSessionHandler.DeleteSession session m = m.
Proof.
  intros H. unfold SharedMapSessionHandler.DeleteSession. now rewrite H.
Qed.

Lemma DeleteSession_delete (session : Session) (m : gmap string Session) :
  token_ session <> "" ->
  SharedMapSessionHandler.DeleteSession session m = delete (token_ session) m.
Proof.
  intros H. unfold SharedMapSessionHandler.DeleteSession.
  apply str_empty_false in H. now rewrite H.
Qed.

Lemma DeleteSession_absent (session : Session) (m : gmap string Session) :
  m !! token_ session = None ->
  SharedMapSessionHandler.DeleteSession session m = m.
Proof.
  intros H. unfold SharedMapSessionHandler.DeleteSession.
  destruct (str_empty (token_ session)); [reflexivity |].
  now apply delete_id.
Qed.

Lemma store_inv_intro (m : gmap string Session) :
  m !! "" = None ->
  (forall token session, m !! token = Some session -> token_ session = token) ->
  store_inv m.
Proof.
  intros H1 H2. repeat split; try assumption. apply NoDup_fst_map_to_list.
Qed.

Lemma store_inv_empty : store_inv ∅.
Proof.
  apply store_inv_intro; [apply lookup_empty |].
  intros token session H. rewrite lookup_empty in H. discriminate.
Qed.

Lemma store_inv_SaveSession (session : Session) (m : gmap string Session) :
  store_inv m -> store_inv (SharedMapSessionHandler.SaveSession session m).
Proof.
  intros (Hnil & Hkey & _).
  destruct (decide (token_ session = "")) as [He | Hne].
  - rewrite SaveSession_empty by assumption. now apply store_inv_intro.
  - rewrite SaveSession_insert by assumption. apply store_inv_intro.
    + rewrite lookup_insert_ne by assumption. exact Hnil.
    + intros token s' Hl.
      destruct (decide (token_ session = token)) as [<- | Hd].
      * rewrite lookup_insert_eq in Hl. now inversion Hl.
      * rewrite lookup_insert_ne in Hl by assumption. now apply Hkey.
Qed.

Lemma store_inv_DeleteSession (session : Session) (m : gmap string Session) :
  store_inv m -> store_inv (SharedMapSessionHandler.DeleteSession session m).
Proof.
  intros (Hnil & Hkey & _).
  destruct (decide (token_ session = "")) as [He | Hne].
  - rewrite DeleteSession_empty by assumption. now apply store_inv_intro.
  - rewrite DeleteSession_delete by assumption. apply store_inv_intro.
    + rewrite lookup_delete_ne by assumption. exact Hnil.
    + intros token s' Hl.
      destruct (decide (token_ session = token)) as [<- | Hd].
      * rewrite lookup_delete_eq in Hl. discriminate.
      * rewrite lookup_delete_ne in Hl by assumption. now apply Hkey.
Qed.

Lemma store_inv_delete_all (l : list Session) (m : gmap string Session) :
  store_inv m -> store_inv (delete_all l m).
Proof.
  revert m. induction l as [| session l IH]; intros m Hm; [exact Hm |].
  apply IH. now apply store_inv_DeleteSession.
Qed.

Lemma sessions_fold_Close (l : list Session) (w : World) :
  sessions_ (fold_left (fun w' session => Close session w') l w)
  = delete_all l (sessions_ w).
Proof.
  revert w. induction l as [| session l IH]; intros w; [reflexivity |].
  simpl. now rewrite IH.
Qed.

Lemma sessions_CleanSessions (now : Z) (w : World) :
  sessions_ (CleanSessions now w)
  = delete_all (sessions_to_erase now (sessions_ w)) (sessions_ w).
Proof. apply sessions_fold_Close. Qed.

Lemma reachable_store_inv (m : gmap string Session) :
  reachable m -> store_inv m.
Proof.
  induction 1 as [| session m _ IH | session m _ IH | now w _ IH].
  - apply store_inv_empty.
  - now apply store_inv_SaveSession.
  - now apply store_inv_DeleteSession.
  - rewrite sessions_CleanSessions. now apply store_inv_delete_all.
Qed.

Lemma DeleteSession_lookup_None (session : Session) (m : gmap string Session)
    (token : string) :
  m !! token = None ->
  SharedMapSessionHandler.DeleteSession session m !! token = None.
Proof.
  intros H. unfold SharedMapSessionHandler.DeleteSession.
  destruct (str_empty (token_ session)); [exact H |].
  rewrite lookup_delete_None. now right.
Qed.

Lemma delete_all_lookup_None (l : list Session) (m : gmap string Session)
    (token : string) :
  m !! token = None -> delete_all l m !! token = None.
Proof.
  revert m. induction l as [| session l IH]; intros m H; [exact H |].
  apply IH. now apply DeleteSession_lookup_None.
Qed.

Lemma delete_all_lookup_erased (l : list Session) (m : gmap string Session)
    (session : Session) :
  In session l -> token_ session <> "" ->
  delete_all l m !! token_ session = None.
Proof.
  revert m. induction l as [| s l IH]; intros m Hin Hne; [destruct Hin |].
  destruct Hin as [-> | Hin].
  - simpl. apply delete_all_lookup_None.
    rewrite DeleteSession_delete by assumption. apply lookup_delete_eq.
  - simpl. now apply IH.
Qed.

Lemma delete_all_lookup_kept (l : list Session) (m : gmap string Session)
    (token : string) :
  (forall session, In session l -> token_ session <> token) ->
  delete_all l m !! token = m !! token.
Proof.
  revert m. induction l as [| s l IH]; intros m H; [reflexivity |].
  simpl. rewrite IH by (intros s' Hs'; apply H; now right).
  unfold SharedMapSessionHandler.DeleteSession.
  destruct (str_empty (token_ s)); [reflexivity |].
  apply lookup_delete_ne. apply H. now left.
Qed.

Lemma In_sessions_to_erase (now : Z) (m : gmap string Session) (session : Session) :
  In session (sessions_to_erase now m)
  <-> (exists token, m !! token = Some session) /\ IsGarbage now session = true.
Proof.
  unfold sessions_to_erase. rewrite filter_In, <- list_elem_of_In, list_elem_of_fmap.
  split.
  - intros [[[token s] [-> Hel]] Hg]. split; [| exact Hg].
    exists token. now apply elem_of_map_to_list in Hel.
  - intros [[token Hl] Hg]. split; [| exact Hg].
    exists (token, session). split; [reflexivity |].
    now apply elem_of_map_to_list.
Qed.

(** C4.  On a map that satisfies the invariant, one sweep removes the
    entries whose session was garbage when the map was scanned, and leaves
    every other entry as it was. *)
Theorem CleanSessions_removes_garbage (now : Z) (w : World) :
  store_inv (sessions_ w) ->
  forall token : string,
    sessions_ (CleanSessions now w) !! token
    = match sessions_ w !! token with
      | Some session => if IsGarbage now session then None else Some session
      | None => None
      end.
Proof.
  intros (Hnil & Hkey & _) token. rewrite sessions_CleanSessions.
  destruct (sessions_ w !! token) as [session |] eqn:Hl.
  - pose proof (Hkey _ _ Hl) as Htok.
    destruct (IsGarbage now session) eqn:Hg.
    + rewrite <- Htok. apply delete_all_lookup_erased.
      * apply In_sessions_to_erase. split; [now exists token | exact Hg].
      * rewrite Htok. intros ->. congruence.
    + rewrite delete_all_lookup_kept; [exact Hl |].
      intros s' Hin Heq. apply In_sessions_to_erase in Hin as [[token' Hl'] Hg'].
      pose proof (Hkey _ _ Hl') as Htok'.
      assert (token' = token) by congruence. subst token'.
      congruence.
  - now apply delete_all_lookup_None.
Qed.

Lemma CleanSessions_removes_garbage_witness :
  store_inv (sessions_ (sample_world two_sessions))
  /\ sessions_ (CleanSessions 100 (sample_world two_sessions)) !! "A" = None
  /\ sessions_ (CleanSessions 100 (sample_world two_sessions)) !! "B"
     = Some (sample_session "B" 99).
Proof.
  assert (Hinv : store_inv (sessions_ (sample_world two_sessions)))
    by apply store_inv_SaveSession, store_inv_SaveSession, store_inv_empty.
  split; [exact Hinv |]. split.
  - rewrite (CleanSessions_removes_garbage 100 _ Hinv "A"). reflexivity.
  - rewrite (CleanSessions_removes_garbage 100 _ Hinv "B"). reflexivity.
Defined.

(** C8.  [SaveSession], [DeleteSession] and [CleanSessions] keep the
    invariant of the map; [GenerateToken] does not touch the map; saving a
    session without a token changes nothing; saving a session with a token
    makes it the entry of that token and leaves the other tokens alone, so
    that of two sessions saved one after the other under one token only the
    second is in the map. *)
Theorem handler_preserves_store_inv (now : Z) (w : World) (session newer : Session) :
  store_inv (sessions_ w) ->
  store_inv (SharedMapSessionHandler.SaveSession session (sessions_ w))
  /\ store_inv (SharedMapSessionHandler.DeleteSession session (sessions_ w))
  /\ store_inv (sessions_ (CleanSessions now w))
  /\ sessions_ (snd (SharedMapSessionHandler.GenerateToken w)) = sessions_ w
  /\ (token_ session = "" ->
      SharedMapSessionHandler.SaveSession session (sessions_ w) = sessions_ w)
  /\ (token_ session <> "" ->
      SharedMapSessionHandler.SaveSession session (sessions_ w) !! token_ session
      = Some session
      /\ forall token, token <> token_ session ->
           SharedMapSessionHandler.SaveSession session (sessions_ w) !! token
           = sessions_ w !! token)
  /\ (token_ session <> "" -> token_ newer = token_ session ->
      SharedMapSessionHandler.SaveSession newer
        (SharedMapSessionHandler.SaveSession session (sessions_ w))
      = SharedMapSessionHandler.SaveSession newer (sessions_ w)
      /\ SharedMapSessionHandler.SaveSession newer
           (SharedMapSessionHandler.SaveSession session (sessions_ w))
         !! token_ session = Some newer).
Proof.
  intros Hinv.
  split; [now apply store_inv_SaveSession |].
  split; [now apply store_inv_DeleteSession |].
  split; [rewrite sessions_CleanSessions; now apply store_inv_delete_all |].
  split; [reflexivity |].
  split; [apply SaveSession_empty |].
  split.
  - intros Hne. rewrite SaveSession_insert by assumption. split.
    + apply lookup_insert_eq.
    + intros token Hd. apply lookup_insert_ne. congruence.
  - intros Hne Heq.
    assert (Hne' : token_ newer <> "") by congruence.
    rewrite (SaveSession_insert session) by assumption.
    rewrite !(SaveSession_insert newer) by assumption.
    rewrite Heq. split.
    + apply insert_insert_eq.
    + apply lookup_insert_eq.
Qed.

Lemma handler_preserves_store_inv_witness :
  store_inv (sessions_ (sample_world one_session))
  /\ SharedMapSessionHandler.SaveSession (sample_session "T" 30)
       (SharedMapSessionHandler.SaveSession (sample_session "T" 20)
          (sessions_ (sample_world one_session))) !! "T"
     = Some (sample_session "T" 30).
Proof.
  assert (Hinv : store_inv (sessions_ (sample_world one_session)))
    by apply store_inv_SaveSession, store_inv_empty.
  split; [exact Hinv |].
  destruct (handler_preserves_store_inv 0 (sample_world one_session)
              (sample_session "T" 20) (sample_session "T" 30) Hinv)
    as (_ & _ & _ & _ & _ & _ & H).
  apply H; [simpl; discriminate | reflexivity].
Defined.

(** ** Close *)

(** C9.  [Close] on a session whose token has no entry in the map calls the
    close callbacks with the state of the session and clears the roles once
    more, and the [DeleteSession] it ends with leaves the map as it is. *)
Theorem Close_entry_already_removed (this : Session) (w : World) :
  sessions_ w !! token_ this = None ->
  SharedMapSessionHandler.DeleteSession this (sessions_ w) = sessions_ w
  /\ sessions_ (Close this w) = sessions_ w
  /\ trace (Close this w) = (trace w ++ [CallAll this; RemoveAll])%list.
Proof.
  intros H. split; [now apply DeleteSession_absent |].
  split; [| reflexivity].
  simpl. now apply DeleteSession_absent.
Qed.

Lemma Close_entry_already_removed_witness :
  sessions_ (Close (sample_session "T" 10) (sample_world one_session))
    !! token_ (sample_session "T" 10) = None
  /\ sessions_ (Close (sample_session "T" 10)
                  (Close (sample_session "T" 10) (sample_world one_session)))
     = sessions_ (Close (sample_session "T" 10) (sample_world one_session))
  /\ trace (Close (sample_session "T" 10)
              (Close (sample_session "T" 10) (sample_world one_session)))
     = [CallAll (sample_session "T" 10); RemoveAll;
        CallAll (sample_session "T" 10); RemoveAll].
Proof.
  assert (H : sessions_ (Close (sample_session "T" 10) (sample_world one_session))
                !! token_ (sample_session "T" 10) = None) by reflexivity.
  split; [exact H |].
  destruct (Close_entry_already_removed (sample_session "T" 10)
              (Close (sample_session "T" 10) (sample_world one_session)) H)
    as (_ & Hmap & Htrace).
  split; [exact Hmap | exact Htrace].
Defined.

(** ** Update *)

Lemma Update_update_time (k : variant) (now : Z) (this : Session) (w : World) :
  fst (Update k now this w) = SetUpdateTime now this.
Proof. destruct k; reflexivity. Qed.

Lemma Update_variant_saves (k : variant) (now : Z) (this : Session) (w : World) :
  k <> BaseSession ->
  sessions_ (snd (Update k now this w))
  = SharedMapSessionHandler.SaveSession (SetUpdateTime now this) (sessions_ w).
Proof. destruct k; [congruence | reflexivity | reflexivity]. Qed.

Lemma Update_base_world (now : Z) (this : Session) (w : World) :
  snd (Update BaseSession now this w) = w.
Proof. reflexivity. Qed.

Lemma Update_trace (k : variant) (now : Z) (this : Session) (w : World) :
  trace (snd (Update k now this w)) = trace w.
Proof. destruct k; reflexivity. Qed.

Lemma store_inv_Update (k : variant) (now : Z) (this : Session) (w : World) :
  store_inv (sessions_ w) -> store_inv (sessions_ (snd (Update k now this w))).
Proof.
  intros H. destruct k; [exact H | |]; simpl; now apply store_inv_SaveSession.
Qed.

(** C1.  [Update] of the base class at time 100 on the session ["T"], the
    map being empty: the update time becomes 100 and the map stays empty,
    no session is saved under ["T"]; [Update] of [SimpleSession] and of
    [StorageSession] on the same input save the session, with its new
    update time, under ["T"]. *)
Theorem Session_Update_does_not_save :
  Update BaseSession 100 (sample_session "T" 10) (sample_world ∅)
  = (sample_session "T" 100, sample_world ∅)
  /\ sessions_ (snd (Update BaseSession 100 (sample_session "T" 10) (sample_world ∅)))
       !! "T" = None
  /\ sessions_ (snd (Update SimpleSession 100 (sample_session "T" 10) (sample_world ∅)))
       !! "T" = Some (sample_session "T" 100)
  /\ sessions_ (snd (Update StorageSession 100 (sample_session "T" 10) (sample_world ∅)))
       !! "T" = Some (sample_session "T" 100).
Proof. repeat split. Qed.

(** ** Open *)

Lemma Open_free_token (fuel : nat) (k : variant) (now : Z) (this : Session) (w : World) :
  SharedMapSessionHandler.SessionExists (n_generator_ w (n_generated w))
    (SharedMapSessionHandler.DeleteSession this (sessions_ w)) = false ->
  Open (S fuel) k now this w
  = Some (Update k now (SetToken (n_generator_ w (n_generated w)) this)
            (snd (SharedMapSessionHandler.GenerateToken (Close this w)))).
Proof. intros H. simpl. simpl in H. now rewrite H. Qed.

(** When the generated token is taken, [Open] starts again with that token
    in [token_], and the [Close] it starts with deletes the entry of the
    token from the map. *)
Lemma Open_taken_token (fuel : nat) (k : variant) (now : Z) (this : Session) (w : World) :
  SharedMapSessionHandler.SessionExists (n_generator_ w (n_generated w))
    (SharedMapSessionHandler.DeleteSession this (sessions_ w)) = true ->
  Open (S fuel) k now this w
  = Open fuel k now (SetToken (n_generator_ w (n_generated w)) this)
      (snd (SharedMapSessionHandler.GenerateToken (Close this w)))
  /\ sessions_ (Close (SetToken (n_generator_ w (n_generated w)) this)
                 (snd (SharedMapSessionHandler.GenerateToken (Close this w))))
       !! n_generator_ w (n_generated w) = None.
Proof.
  intros H. split.
  - simpl. simpl in H. now rewrite H.
  - simpl. unfold SharedMapSessionHandler.SessionExists in H.
    unfold SharedMapSessionHandler.DeleteSession at 1. simpl token_.
    destruct (str_empty (n_generator_ w (n_generated w))); [discriminate |].
    apply lookup_delete_eq.
Qed.

(** A call of [Open] that returns within a bound returns the same within
    every greater bound. *)
Lemma Open_fuel_mono (fuel : nat) (k : variant) (now : Z) (this : Session)
    (w : World) (r : Session * World) :
  Open fuel k now this w = Some r -> Open (S fuel) k now this w = Some r.
Proof.
  revert this w. induction fuel as [| fuel IH]; intros this w; [discriminate |].
  intros H. change (Open (S fuel) k now this w) with
    (let w1 := Close this w in
     let '(token, w2) := SharedMapSessionHandler.GenerateToken w1 in
     let this1 := SetToken token this in
     if SharedMapSessionHandler.SessionExists token (sessions_ w2)
     then Open fuel k now this1 w2
     else Some (Update k now this1 w2)) in H.
  change (Open (S (S fuel)) k now this w) with
    (let w1 := Close this w in
     let '(token, w2) := SharedMapSessionHandler.GenerateToken w1 in
     let this1 := SetToken token this in
     if SharedMapSessionHandler.SessionExists token (sessions_ w2)
     then Open (S fuel) k now this1 w2
     else Some (Update k now this1 w2)).
  cbv zeta in *.
  destruct (SharedMapSessionHandler.GenerateToken (Close this w)) as [token w2].
  destruct (SharedMapSessionHandler.SessionExists token (sessions_ w2));
    [now apply IH | exact H].
Qed.

(** C2.  [Open] on a new session, the map holding the session ["T"] and the
    generator yielding ["T"] and then ["U"]: the call returns with the token
    ["U"] saved, the close callbacks have been called on the state with the
    token ["T"], and the session that was stored under ["T"] is no longer
    in the map. *)
Theorem Open_collision_erases_stored_session :
  sessions_ (sample_world one_session) !! "T" = Some (sample_session "T" 10)
  /\ exists this' w',
       Open 2 SimpleSession 100 (sample_session "" 0) (sample_world one_session)
       = Some (this', w')
       /\ this' = sample_session "U" 100
       /\ sessions_ w' !! "U" = Some (sample_session "U" 100)
       /\ sessions_ w' !! "T" = None
       /\ trace w' = [CallAll (sample_session "" 0); RemoveAll;
                      CallAll (sample_session "T" 0); RemoveAll].
Proof.
  split; [reflexivity |].
  eexists _, _. split; [reflexivity |]. repeat split.
Qed.

(** ** LoadSession(token) *)

Lemma LoadSession_empty_token (k : variant) (now : Z) (this : Session) (w : World) :
  LoadSession k now "" this w = (false, this, w).
Proof. reflexivity. Qed.

(** C3.  [LoadSession(token)] is protected and is called from the
    constructors only, directly or through [LoadSession(request)] and
    [LoadSession(request, response)], on an instance whose token is still
    empty and on a map that the handler has built.  On every such call it
    succeeds exactly when the map holds a valid session for [token]; the
    instance then adopts that session and [Update] is called; otherwise it
    fails and leaves the instance and the world as they were. *)
Theorem LoadSession_fresh_instance (k : variant) (now : Z) (token : string)
    (this : Session) (w : World) :
  token_ this = "" ->
  store_inv (sessions_ w) ->
  LoadSession_expected k now token this w.
Proof.
  intros Hfresh (Hnil & Hkey & _).
  unfold LoadSession_expected, LoadSession, SharedMapSessionHandler.LoadSession.
  case_empty token.
  - subst token. rewrite Hnil. split; [| split].
    + split; [discriminate | intros (s & Hs & _); discriminate].
    + intros s Hs. discriminate.
    + intros _. split; reflexivity.
  - destruct (sessions_ w !! token) as [session |] eqn:Hl.
    + pose proof (Hkey _ _ Hl) as Htok.
      destruct (IsValid now session) eqn:Hv.
      * assert (Hne : str_empty (token_ (Session_set session this)) = false)
          by (apply str_empty_false; simpl; congruence).
        rewrite Hne.
        destruct (Update k now (Session_set session this) w) as [this2 w2] eqn:Hu.
        split; [| split].
        -- split; [intros _; now exists session | reflexivity].
        -- intros s Hs _. inversion Hs. now subst s.
        -- discriminate.
      * assert (He : str_empty (token_ this) = true) by now apply str_empty_true.
        rewrite He. split; [| split].
        -- split; [discriminate |]. intros (s & Hs & Hvs). congruence.
        -- intros s Hs Hvs. congruence.
        -- intros _. split; reflexivity.
    + assert (He : str_empty (token_ this) = true) by now apply str_empty_true.
      rewrite He. split; [| split].
      * split; [discriminate |]. intros (s & Hs & _). discriminate.
      * intros s Hs. discriminate.
      * intros _. split; reflexivity.
Qed.

Lemma LoadSession_fresh_instance_witness :
  token_ (sample_session "" 0) = ""
  /\ store_inv (sessions_ (sample_world two_sessions))
  /\ LoadSession_expected SimpleSession 100 "B" (sample_session "" 0)
       (sample_world two_sessions).
Proof.
  assert (Hinv : store_inv (sessions_ (sample_world two_sessions)))
    by apply store_inv_SaveSession, store_inv_SaveSession, store_inv_empty.
  split; [reflexivity |]. split; [exact Hinv |].
  apply LoadSession_fresh_instance; [reflexivity | exact Hinv].
Defined.

(** On a new instance: the valid session ["B"] is loaded and saved again
    with the time of the call; the session ["A"], which has timed out, is
    not loaded. *)
Example LoadSession_samples :
  LoadSession SimpleSession 100 "B" (sample_session "" 0) (sample_world two_sessions)
  = (true, sample_session "B" 100,
     sample_world (SharedMapSessionHandler.SaveSession (sample_session "B" 100)
                     two_sessions))
  /\ LoadSession SimpleSession 100 "A" (sample_session "" 0) (sample_world two_sessions)
     = (false, sample_session "" 0, sample_world two_sessions).
Proof. split; reflexivity. Qed.

(** The condition on the instance is needed: a derived class that called
    [LoadSession("B")] on an instance with the token ["A"] in [token_], the
    map being empty, would be told that a session was found, for the test
    of the result is that [token_] is not empty. *)
Lemma LoadSession_stale_token_succeeds :
  ~ LoadSession_expected SimpleSession 100 "B" (sample_session "A" 10) (sample_world ∅).
Proof.
  unfold LoadSession_expected. simpl.
  intros [[Hfound _] _].
  destruct (Hfound eq_refl) as (snapshot & Hl & _).
  rewrite lookup_empty in Hl. discriminate.
Qed.

(** ** The default token support *)

Lemma LoadSession_request_default_support (k : variant) (now : Z)
    (request : http_request) (this : Session) (w : World) :
  session_token_support_ this = "" ->
  LoadSession_request k now request this w
  = LoadSession_request k now request
      (SetTokenSupport entity_keys.session_query this) w.
Proof.
  intros H. destruct this as [tok upd lbl sup tmo]. simpl in H. subst sup.
  reflexivity.
Qed.

Lemma LoadSession_request_response_default_support (trim : string -> string)
    (fuel : nat) (k : variant) (now : Z) (request : http_request)
    (response : http_response) (this : Session) (w : World) :
  session_token_support_ this = "" ->
  LoadSession_request_response trim fuel k now request response this w
  = Some (false, SetTokenSupport entity_keys.session_token_support this, w, response).
Proof.
  intros H. destruct this as [tok upd lbl sup tmo]. simpl in H. subst sup.
  reflexivity.
Qed.

(** C6.  [LoadSession(request, response)] on a session without a configured
    token support, a request without cookies and an empty map: the token
    support becomes the name of the configuration key, no flow is entered,
    the call returns [false] and opens no session.  With the token support
    [cookie] the same call opens the session ["T"], saves it and sets the
    cookie.  [LoadSession(request)] on the unconfigured session does behave
    as with the token support [query]. *)
Theorem LoadSession_default_support_is_not_cookie (trim : string -> string) :
  LoadSession_request_response trim 2 SimpleSession 100 (query_request "")
    (mkResponse ∅) unconfigured_session (sample_world ∅)
  = Some (false, mkSession "" 0 "token" "session_token_support" 5,
          sample_world ∅, mkResponse ∅)
  /\ (exists w' response',
        LoadSession_request_response trim 2 SimpleSession 100 (query_request "")
          (mkResponse ∅) (SetTokenSupport entity_keys.session_cookie unconfigured_session)
          (sample_world ∅)
        = Some (true, sample_session "T" 100, w', response')
        /\ sessions_ w' !! "T" = Some (sample_session "T" 100)
        /\ headers response' !! "Set-Cookie" = Some "token=T; path=/")
  /\ LoadSession_request SimpleSession 100 (query_request "token=T")
       unconfigured_session (sample_world one_session)
     = LoadSession_request SimpleSession 100 (query_request "token=T")
         (SetTokenSupport entity_keys.session_query unconfigured_session)
         (sample_world one_session).
Proof.
  split; [reflexivity |]. split; [| reflexivity].
  eexists _, _. split; [reflexivity |]. split; reflexivity.
Qed.

(** ** The query flow *)

Lemma scan_keys_and_values_S (token_label : string) (keys_and_values : list string)
    (len : nat) :
  scan_keys_and_values token_label keys_and_values (S len)
  = match token_of_pair token_label (nth len keys_and_values "") with
    | Some token => Some token
    | None => scan_keys_and_values token_label keys_and_values len
    end.
Proof.
  simpl. unfold token_of_pair.
  now destruct ((1 <? length (split (nth len keys_and_values "") "="))%nat
                && String.eqb (nth 0 (split (nth len keys_and_values "") "=") "")
                     token_label).
Qed.

Lemma scan_keys_and_values_Some (token_label : string) (keys_and_values : list string)
    (len : nat) (token : string) :
  scan_keys_and_values token_label keys_and_values len = Some token ->
  exists i, (i < len)%nat
            /\ token_of_pair token_label (nth i keys_and_values "") = Some token.
Proof.
  induction len as [| len IH]; [discriminate |].
  rewrite scan_keys_and_values_S.
  destruct (token_of_pair token_label (nth len keys_and_values "")) as [t |] eqn:Hp.
  - intros [= ->]. exists len. split; [lia | exact Hp].
  - intros H. destruct (IH H) as (i & Hi & Hpi). exists i. split; [lia | exact Hpi].
Qed.

Lemma scan_keys_and_values_None (token_label : string) (keys_and_values : list string)
    (len : nat) :
  scan_keys_and_values token_label keys_and_values len = None ->
  forall i, (i < len)%nat ->
            token_of_pair token_label (nth i keys_and_values "") = None.
Proof.
  induction len as [| len IH]; [intros _ i Hi; lia |].
  rewrite scan_keys_and_values_S.
  destruct (token_of_pair token_label (nth len keys_and_values "")) as [t |] eqn:Hp;
    [discriminate |].
  intros H i Hi. destruct (decide (i = len)) as [-> | Hne]; [exact Hp |].
  apply IH; [exact H | lia].
Qed.

(** The scan stops at the pair with the greatest index that has a token. *)
Lemma scan_keys_and_values_last (token_label : string) (keys_and_values : list string)
    (len i : nat) (token : string) :
  (i < len)%nat ->
  token_of_pair token_label (nth i keys_and_values "") = Some token ->
  (forall j, (i < j < len)%nat ->
             token_of_pair token_label (nth j keys_and_values "") = None) ->
  scan_keys_and_values token_label keys_and_values len = Some token.
Proof.
  induction len as [| len IH]; intros Hi Hp Hlater; [lia |].
  rewrite scan_keys_and_values_S.
  destruct (decide (i = len)) as [-> | Hne].
  - now rewrite Hp.
  - rewrite Hlater by lia. apply IH; [lia | exact Hp |].
    intros j Hj. apply Hlater. lia.
Qed.

(** From the last pair to the first, the first pair with a token. *)
Lemma scan_keys_and_values_rev (token_label : string) (keys_and_values : list string)
    (len : nat) :
  (len <= length keys_and_values)%nat ->
  scan_keys_and_values token_label keys_and_values len
  = head (omap (token_of_pair token_label) (rev (firstn len keys_and_values))).
Proof.
  induction len as [| len IH]; intros Hlen; [reflexivity |].
  rewrite scan_keys_and_values_S.
  destruct (lookup_lt_is_Some_2 keys_and_values len) as [pair Hpair]; [lia |].
  rewrite (take_S_r _ _ _ Hpair), rev_app_distr. simpl.
  rewrite nth_lookup, Hpair. simpl.
  destruct (token_of_pair token_label pair); [reflexivity |].
  apply IH. lia.
Qed.

Lemma LoadSession_request_query_flow (k : variant) (now : Z)
    (request : http_request) (this : Session) (w : World) :
  session_token_support_ this = entity_keys.session_query ->
  LoadSession_request k now request this w
  = match query_token (token_label_ this) (relative_uri_query request) with
    | Some token => LoadSession k now token this w
    | None => (false, this, w)
    end.
Proof.
  intros H. destruct this as [tok upd lbl sup tmo]. simpl in H. subst sup.
  reflexivity.
Qed.

(** C7, as amended.  In the query flow [LoadSession(request)] splits the
    query string at ["&"] and each pair at ["="], and hands to
    [LoadSession(token)] the value, as it stands in the query string, of a
    pair whose key is the token label; it fails when no pair has that key.
    For ["a=1&b=2"] the token under the label ["b"] is ["2"], and under the
    label ["c"] there is none and the call fails. *)
Theorem query_flow_token (k : variant) (now : Z) (request : http_request)
    (this : Session) (w : World) :
  session_token_support_ this = entity_keys.session_query ->
  LoadSession_request k now request this w
  = match query_token (token_label_ this) (relative_uri_query request) with
    | Some token => LoadSession k now token this w
    | None => (false, this, w)
    end
  /\ (forall token,
        query_token (token_label_ this) (relative_uri_query request) = Some token ->
        exists pair, In pair (split (relative_uri_query request) "&")
                     /\ token_of_pair (token_label_ this) pair = Some token)
  /\ (query_token (token_label_ this) (relative_uri_query request) = None ->
      forall pair, In pair (split (relative_uri_query request) "&") ->
                   token_of_pair (token_label_ this) pair = None)
  /\ query_token "b" "a=1&b=2" = Some "2"
  /\ query_token "c" "a=1&b=2" = None
  /\ LoadSession_request k now (query_request "a=1&b=2") (query_session "b") w
     = LoadSession k now "2" (query_session "b") w
  /\ LoadSession_request k now (query_request "a=1&b=2") (query_session "c") w
     = (false, query_session "c", w).
Proof.
  intros Hq. split; [now apply LoadSession_request_query_flow |].
  split; [| split].
  - intros token Ht. apply scan_keys_and_values_Some in Ht as (i & Hi & Hp).
    exists (nth i (split (relative_uri_query request) "&") "").
    split; [now apply nth_In | exact Hp].
  - intros Hn pair Hin.
    destruct (In_nth _ _ "" Hin) as (i & Hi & <-).
    now apply (scan_keys_and_values_None _ _ _ Hn).
  - repeat split.
Qed.

Lemma query_flow_token_witness :
  session_token_support_ (query_session "b") = entity_keys.session_query
  /\ LoadSession_request SimpleSession 100 (query_request "a=1&b=2")
       (query_session "b") (sample_world two_sessions)
     = LoadSession SimpleSession 100 "2" (query_session "b") (sample_world two_sessions).
Proof.
  split; [reflexivity |].
  destruct (query_flow_token SimpleSession 100 (query_request "a=1&b=2")
              (query_session "b") (sample_world two_sessions) eq_refl)
    as (H & _).
  exact H.
Defined.

(** C7, as stated, fails on a value with an escape: for the query string
    ["token=%42"] the percent-decoded token is ["B"], a valid session of the
    map, while [LoadSession(request)] looks up ["%42"] and fails. *)
Lemma query_flow_does_not_decode :
  decoded_query_token "token" "token=%42" = Some "B"
  /\ query_token "token" "token=%42" = Some "%42"
  /\ ~ query_flow_decodes SimpleSession 100 (query_request "token=%42")
         (query_session "token") (sample_world two_sessions).
Proof.
  split; [reflexivity |]. split; [reflexivity |].
  unfold query_flow_decodes. intros H. vm_compute in H. discriminate H.
Qed.

(** C10, as amended.  In the query flow the pairs are scanned from the last
    to the first, and the first pair met that splits at ["="] into more than
    one item, the first of them the token label, gives the token, which is
    its second item; hence the token handed to [LoadSession(token)] is the
    value of the pair at the greatest position that has the token label as
    key and has a value.  Pairs with that key and no value are passed
    over. *)
Theorem query_flow_last_occurrence (k : variant) (now : Z) (request : http_request)
    (this : Session) (w : World) (i : nat) (token : string) :
  session_token_support_ this = entity_keys.session_query ->
  (i < length (split (relative_uri_query request) "&"))%nat ->
  token_of_pair (token_label_ this)
    (nth i (split (relative_uri_query request) "&") "") = Some token ->
  (forall j, (i < j < length (split (relative_uri_query request) "&"))%nat ->
             token_of_pair (token_label_ this)
               (nth j (split (relative_uri_query request) "&") "") = None) ->
  query_token (token_label_ this) (relative_uri_query request)
  = head (omap (token_of_pair (token_label_ this))
            (rev (split (relative_uri_query request) "&")))
  /\ query_token (token_label_ this) (relative_uri_query request) = Some token
  /\ LoadSession_request k now request this w = LoadSession k now token this w.
Proof.
  intros Hq Hi Hp Hlater.
  assert (Ht : query_token (token_label_ this) (relative_uri_query request)
               = Some token)
    by now apply scan_keys_and_values_last with (i := i).
  split; [| split].
  - unfold query_token. rewrite scan_keys_and_values_rev by lia.
    now rewrite firstn_all.
  - exact Ht.
  - rewrite LoadSession_request_query_flow by assumption. now rewrite Ht.
Qed.

Lemma query_flow_last_occurrence_witness :
  session_token_support_ (query_session "b") = entity_keys.session_query
  /\ token_of_pair "b" (nth 1 (split "b=1&b=2&a=3" "&") "") = Some "2"
  /\ LoadSession_request SimpleSession 100 (query_request "b=1&b=2&a=3")
       (query_session "b") (sample_world two_sessions)
     = LoadSession SimpleSession 100 "2" (query_session "b") (sample_world two_sessions).
Proof.
  split; [reflexivity |]. split; [reflexivity |].
  destruct (query_flow_last_occurrence SimpleSession 100
              (query_request "b=1&b=2&a=3") (query_session "b")
              (sample_world two_sessions) 1 "2") as (_ & _ & H).
  - reflexivity.
  - simpl. lia.
  - reflexivity.
  - simpl. intros j Hj. assert (j = 2%nat) as -> by lia. reflexivity.
  - exact H.
Defined.

(** C10, as stated, fails when the last occurrence of the key has no value:
    in ["token=B&token"] the key [token] occurs last in the pair ["token"],
    whose value is empty, and [LoadSession(request)] passes that pair over
    and loads the session ["B"] of the pair before it. *)
Lemma query_flow_skips_last_occurrence :
  last_occurrence "token" (split "token=B&token" "&") None = Some ""
  /\ query_token "token" "token=B&token" = Some "B"
  /\ ~ query_flow_uses_last_occurrence SimpleSession 100
         (query_request "token=B&token") (query_session "token")
         (sample_world two_sessions).
Proof.
  split; [reflexivity |]. split; [reflexivity |].
  unfold query_flow_uses_last_occurrence. intros H. vm_compute in H.
  discriminate H.
Qed.

(** * Further properties of the life cycle *)

(** ** Update, Close and LoadSession *)

Lemma IsValid_true (now : Z) (s : Session) :
  IsValid now s = true
  <-> session_timeout_ s < 0 \/ now - update_time_ s <= session_timeout_ s.
Proof.
  unfold IsValid, IsTimedOut. rewrite negb_true_iff.
  split.
  - intros H. destruct (Z_lt_dec (session_timeout_ s) 0) as [Hn | Hp]; [now left |].
    right. destruct (Z_le_dec (now - update_time_ s) (session_timeout_ s)) as [Hle | Hgt];
      [exact Hle |].
    assert (Ht : IsTimedOut_extra now s 0 = true)
      by (apply IsTimedOut_extra_true; lia).
    congruence.
  - intros H. apply not_true_is_false. rewrite IsTimedOut_extra_true. lia.
Qed.

(** X1.  The session that [Update] returns at time [now] is valid at a time
    [later] exactly when its time-out is negative or at most that many
    seconds have passed; so it is valid, and not garbage, at [now] itself. *)
Theorem Update_valid_until_timeout (k : variant) (now later : Z)
    (this : Session) (w : World) :
  (IsValid later (fst (Update k now this w)) = true
   <-> session_timeout_ this < 0 \/ later - now <= session_timeout_ this)
  /\ IsValid now (fst (Update k now this w)) = true
  /\ IsGarbage now (fst (Update k now this w)) = false.
Proof.
  rewrite Update_update_time.
  assert (Hnow : IsValid now (SetUpdateTime now this) = true).
  { apply IsValid_true. simpl.
    destruct (Z_lt_dec (session_timeout_ this) 0); [now left | right; lia]. }
  split; [apply IsValid_true |].
  split; [exact Hnow |].
  unfold IsGarbage. now rewrite Hnow.
Qed.

Lemma Update_variant (k : variant) (now : Z) (this : Session) (w : World) :
  k <> BaseSession ->
  Update k now this w
  = (SetUpdateTime now this,
     with_sessions (SharedMapSessionHandler.SaveSession (SetUpdateTime now this)
                      (sessions_ w)) w).
Proof. destruct k; [congruence | reflexivity | reflexivity]. Qed.

Lemma handler_LoadSession_found (now : Z) (token : string)
    (m : gmap string Session) (session virgin : Session) :
  token <> "" -> m !! token = Some session -> IsValid now session = true ->
  SharedMapSessionHandler.LoadSession now token m virgin = Session_set session virgin.
Proof.
  intros Hne Hl Hv. unfold SharedMapSessionHandler.LoadSession.
  apply str_empty_false in Hne. now rewrite Hne, Hl, Hv.
Qed.

Lemma handler_LoadSession_absent (now : Z) (token : string)
    (m : gmap string Session) (virgin : Session) :
  m !! token = None ->
  SharedMapSessionHandler.LoadSession now token m virgin = virgin.
Proof.
  intros Hl. unfold SharedMapSessionHandler.LoadSession.
  rewrite Hl. now destruct (str_empty token).
Qed.

(** X2.  A session of [SimpleSession] or [StorageSession] that has a token
    and is updated at time [now] is loaded again under its token at any time
    [later] at which it has not timed out, whatever the loading instance
    held: the instance gets the fields of the session, its update time
    becomes [later], and the map holds that state under the token. *)
Theorem Update_then_LoadSession (k : variant) (now later : Z)
    (this other : Session) (w : World) :
  k <> BaseSession ->
  token_ this <> "" ->
  session_timeout_ this < 0 \/ later - now <= session_timeout_ this ->
  LoadSession k later (token_ this) other (snd (Update k now this w))
  = (true, SetUpdateTime later this,
     with_sessions (SharedMapSessionHandler.SaveSession (SetUpdateTime later this)
                      (sessions_ w)) w).
Proof.
  intros Hk Hne Hvalid.
  rewrite (Update_variant k now) by assumption. simpl snd.
  unfold LoadSession.
  assert (He : str_empty (token_ this) = false) by now apply str_empty_false.
  rewrite He.
  rewrite (handler_LoadSession_found later (token_ this) _ (SetUpdateTime now this)).
  - simpl token_. rewrite He.
    rewrite (Update_variant k later) by assumption.
    f_equal. unfold with_sessions. simpl.
    rewrite !SaveSession_insert by (simpl; assumption). simpl.
    now rewrite insert_insert_eq.
  - assumption.
  - simpl. rewrite SaveSession_insert by (simpl; assumption). simpl.
    apply lookup_insert_eq.
  - apply IsValid_true. simpl. exact Hvalid.
Qed.

Lemma Update_then_LoadSession_witness :
  SimpleSession <> BaseSession
  /\ token_ (sample_session "T" 10) <> ""
  /\ (session_timeout_ (sample_session "T" 10) < 0
      \/ 104 - 100 <= session_timeout_ (sample_session "T" 10))
  /\ LoadSession SimpleSession 104 "T" (sample_session "" 0)
       (snd (Update SimpleSession 100 (sample_session "T" 10) (sample_world ∅)))
     = (true, sample_session "T" 104,
        with_sessions
          (SharedMapSessionHandler.SaveSession (sample_session "T" 104) ∅)
          (sample_world ∅)).
Proof.
  split; [discriminate |]. split; [simpl; discriminate |].
  split; [right; simpl; lia |].
  apply (Update_then_LoadSession SimpleSession 100 104 (sample_session "T" 10)
           (sample_session "" 0) (sample_world ∅)).
  - discriminate.
  - simpl. discriminate.
  - right. simpl. lia.
Defined.

(** X3.  Once a session is closed, an instance without a token cannot load
    it: [LoadSession] with the token of the closed session fails and
    changes neither the instance nor the world. *)
Theorem Close_then_LoadSession (k : variant) (now : Z) (this fresh : Session)
    (w : World) :
  token_ fresh = "" ->
  LoadSession k now (token_ this) fresh (Close this w) = (false, fresh, Close this w).
Proof.
  intros Hfresh. unfold LoadSession.
  case_empty (token_ this); [reflexivity |].
  rewrite handler_LoadSession_absent.
  - apply str_empty_true in Hfresh. now rewrite Hfresh.
  - simpl. rewrite DeleteSession_delete by assumption. apply lookup_delete_eq.
Qed.

Lemma Close_then_LoadSession_witness :
  token_ (sample_session "" 0) = ""
  /\ LoadSession SimpleSession 11 (token_ (sample_session "T" 10)) (sample_session "" 0)
       (Close (sample_session "T" 10) (sample_world one_session))
     = (false, sample_session "" 0,
        Close (sample_session "T" 10) (sample_world one_session)).
Proof.
  split; [reflexivity |].
  apply (Close_then_LoadSession SimpleSession 11 (sample_session "T" 10)
           (sample_session "" 0) (sample_world one_session)).
  reflexivity.
Defined.

(** ** Open *)

Lemma Open_S (fuel : nat) (k : variant) (now : Z) (this : Session) (w : World) :
  Open (S fuel) k now this w
  = if SharedMapSessionHandler.SessionExists (n_generator_ w (n_generated w))
         (SharedMapSessionHandler.DeleteSession this (sessions_ w))
    then Open fuel k now (SetToken (n_generator_ w (n_generated w)) this)
           (snd (SharedMapSessionHandler.GenerateToken (Close this w)))
    else Some (Update k now (SetToken (n_generator_ w (n_generated w)) this)
                 (snd (SharedMapSessionHandler.GenerateToken (Close this w)))).
Proof. reflexivity. Qed.

Lemma SessionExists_false (token : string) (m : gmap string Session) :
  SharedMapSessionHandler.SessionExists token m = false
  <-> token = "" \/ m !! token = None.
Proof.
  unfold SharedMapSessionHandler.SessionExists. case_empty token.
  - split; [now left | reflexivity].
  - destruct (m !! token); split; try discriminate; try reflexivity.
    + intros [H | H]; [contradiction | discriminate].
    + now right.
Qed.

Lemma SessionExists_true (token : string) (m : gmap string Session) :
  SharedMapSessionHandler.SessionExists token m = true
  <-> token <> "" /\ is_Some (m !! token).
Proof.
  unfold SharedMapSessionHandler.SessionExists. case_empty token.
  - split; [discriminate | intros [H _]; contradiction].
  - destruct (m !! token) as [s |]; split; try discriminate; try reflexivity.
    + intros _. split; [assumption | now exists s].
    + intros [_ [s Hs]]. discriminate.
Qed.

Lemma DeleteSession_lookup_ne (session : Session) (m : gmap string Session)
    (token : string) :
  token <> token_ session ->
  SharedMapSessionHandler.DeleteSession session m !! token = m !! token.
Proof.
  intros Hne. unfold SharedMapSessionHandler.DeleteSession.
  destruct (str_empty (token_ session)); [reflexivity |].
  apply lookup_delete_ne. congruence.
Qed.

Lemma SessionExists_DeleteSession_false (token : string) (session : Session)
    (m : gmap string Session) :
  SharedMapSessionHandler.SessionExists token m = false ->
  SharedMapSessionHandler.SessionExists token
    (SharedMapSessionHandler.DeleteSession session m) = false.
Proof.
  rewrite !SessionExists_false. intros [H | H]; [now left | right].
  now apply DeleteSession_lookup_None.
Qed.

(** The two cases of an activation of [Open]: the generated token is taken
    or it is not. *)
Ltac case_taken this w :=
  rewrite Open_S;
  destruct (SharedMapSessionHandler.SessionExists
              (n_generator_ w (n_generated w))
              (SharedMapSessionHandler.DeleteSession this (sessions_ w))) eqn:Hex.

(** X4.  [Open] returns: when the token that the generator yields at its
    [j]-th next call is not in the map, the call returns within [j + 1]
    activations, whatever tokens come before. *)
Theorem Open_returns (j : nat) (k : variant) (now : Z) (this : Session) (w : World) :
  SharedMapSessionHandler.SessionExists
    (n_generator_ w (n_generated w + j)) (sessions_ w) = false ->
  exists r, Open (S j) k now this w = Some r.
Proof.
  revert this w. induction j as [| j IH]; intros this w Hfree.
  - rewrite Nat.add_0_r in Hfree. rewrite Open_S.
    rewrite SessionExists_DeleteSession_false by assumption. eauto.
  - rewrite Open_S.
    destruct (SharedMapSessionHandler.SessionExists
                (n_generator_ w (n_generated w))
                (SharedMapSessionHandler.DeleteSession this (sessions_ w)));
      [| eauto].
    apply IH. simpl.
    rewrite Nat.add_succ_r in Hfree.
    now apply SessionExists_DeleteSession_false.
Qed.

Lemma Open_returns_witness :
  SharedMapSessionHandler.SessionExists
    (n_generator_ (sample_world one_session)
       (n_generated (sample_world one_session) + 1))
    (sessions_ (sample_world one_session)) = false
  /\ exists r, Open 2 SimpleSession 100 (sample_session "" 0)
                 (sample_world one_session) = Some r.
Proof.
  split; [reflexivity |].
  apply (Open_returns 1 SimpleSession 100 (sample_session "" 0)
           (sample_world one_session)).
  reflexivity.
Defined.

Lemma Update_generator (k : variant) (now : Z) (this : Session) (w : World) :
  n_generator_ (snd (Update k now this w)) = n_generator_ w
  /\ n_generated (snd (Update k now this w)) = n_generated w.
Proof. destruct k; split; reflexivity. Qed.

Lemma Update_inv (k : variant) (now : Z) (this this' : Session) (w w' : World) :
  Update k now this w = (this', w') ->
  this' = SetUpdateTime now this
  /\ n_generator_ w' = n_generator_ w
  /\ n_generated w' = n_generated w.
Proof. destruct k; intros [= <- <-]; repeat split. Qed.

Lemma Open_generated (fuel : nat) (k : variant) (now : Z) (this this' : Session)
    (w w' : World) :
  Open fuel k now this w = Some (this', w') ->
  n_generator_ w' = n_generator_ w /\ (n_generated w < n_generated w')%nat.
Proof.
  revert this w. induction fuel as [| fuel IH]; intros this w; [discriminate |].
  case_taken this w.
  - intros H. apply IH in H as [Hg Hn]. simpl in Hg, Hn. split; [exact Hg | lia].
  - intros [= Hu]. apply Update_inv in Hu as (_ & Hg & Hn).
    simpl in Hg, Hn. split; [exact Hg | lia].
Qed.

(** X5.  What [Open] returns: the session keeps its token label, token
    support and time-out, its update time is the time of the call, and its
    token is the one the generator yielded last; the generator has been
    called at least once.  For [SimpleSession] and [StorageSession] a
    session with a token is in the map under it; for the base class no
    session is in the map under the token. *)
Theorem Open_result (fuel : nat) (k : variant) (now : Z) (this this' : Session)
    (w w' : World) :
  Open fuel k now this w = Some (this', w') ->
  token_label_ this' = token_label_ this
  /\ session_token_support_ this' = session_token_support_ this
  /\ session_timeout_ this' = session_timeout_ this
  /\ update_time_ this' = now
  /\ (n_generated w < n_generated w')%nat
  /\ token_ this' = n_generator_ w (n_generated w' - 1)
  /\ (k <> BaseSession -> token_ this' <> "" ->
      sessions_ w' !! token_ this' = Some this')
  /\ (k = BaseSession ->
      SharedMapSessionHandler.SessionExists (token_ this') (sessions_ w') = false).
Proof.
  revert this w. induction fuel as [| fuel IH]; intros this w; [discriminate |].
  case_taken this w.
  - intros H. destruct (IH _ _ H) as (Hl & Hs & Ht & Hu & Hn & Htok & Hsave & Hbase).
    simpl in Hl, Hs, Ht, Hn, Htok.
    repeat split; try assumption. lia.
  - intros [= Hu].
    destruct (Update_inv _ _ _ _ _ _ Hu) as (Hthis & _ & Hn). simpl in Hn.
    subst this'. simpl.
    repeat split; try reflexivity.
    + lia.
    + rewrite Hn. simpl. now rewrite Nat.sub_0_r.
    + intros Hk Hne.
      rewrite (Update_variant k now) in Hu by assumption.
      injection Hu as <-. simpl.
      rewrite SaveSession_insert by (simpl; assumption). simpl.
      apply lookup_insert_eq.
    + intros ->. simpl in Hu. injection Hu as <-. simpl. exact Hex.
Qed.

Lemma Open_result_witness :
  Open 2 SimpleSession 100 (sample_session "" 0) (sample_world one_session)
  = Some (sample_session "U" 100,
          mkWorld (SharedMapSessionHandler.SaveSession (sample_session "U" 100) ∅)
            sample_generator 2
            [CallAll (sample_session "" 0); RemoveAll;
             CallAll (sample_session "T" 0); RemoveAll])
  /\ update_time_ (sample_session "U" 100) = 100
  /\ token_ (sample_session "U" 100) = sample_generator (2 - 1).
Proof.
  assert (H : Open 2 SimpleSession 100 (sample_session "" 0) (sample_world one_session)
              = Some (sample_session "U" 100,
                      mkWorld (SharedMapSessionHandler.SaveSession
                                 (sample_session "U" 100) ∅)
                        sample_generator 2
                        [CallAll (sample_session "" 0); RemoveAll;
                         CallAll (sample_session "T" 0); RemoveAll]))
    by reflexivity.
  split; [exact H |].
  destruct (Open_result _ _ _ _ _ _ _ H) as (_ & _ & _ & Hu & _ & Htok & _).
  split; [exact Hu | exact Htok].
Defined.

(** X6.  What [Open] leaves alone: an entry of the map whose token is
    neither the token the session had nor one of the tokens generated
    during the call is the same after the call. *)
Theorem Open_frame (fuel : nat) (k : variant) (now : Z) (this this' : Session)
    (w w' : World) (token : string) :
  Open fuel k now this w = Some (this', w') ->
  token <> token_ this ->
  (forall i, (n_generated w <= i < n_generated w')%nat -> n_generator_ w i <> token) ->
  sessions_ w' !! token = sessions_ w !! token.
Proof.
  revert this w. induction fuel as [| fuel IH]; intros this w; [discriminate |].
  case_taken this w.
  - intros H Hold Hgen.
    pose proof (Open_generated _ _ _ _ _ _ _ H) as [_ Hlt]. simpl in Hlt.
    rewrite (IH _ _ H).
    + simpl. now apply DeleteSession_lookup_ne.
    + simpl. intros Heq. apply (Hgen (n_generated w)); [lia | congruence].
    + simpl. intros i Hi. apply Hgen. lia.
  - intros [= Hu] Hold Hgen.
    destruct (Update_inv _ _ _ _ _ _ Hu) as (_ & _ & Hn). simpl in Hn.
    assert (Hne : n_generator_ w (n_generated w) <> token)
      by (apply Hgen; lia).
    destruct k; simpl in Hu; injection Hu as <- <-; simpl.
    + now apply DeleteSession_lookup_ne.
    + unfold SharedMapSessionHandler.SaveSession. simpl.
      destruct (str_empty (n_generator_ w (n_generated w))).
      * now apply DeleteSession_lookup_ne.
      * rewrite lookup_insert_ne by assumption. now apply DeleteSession_lookup_ne.
    + unfold SharedMapSessionHandler.SaveSession. simpl.
      destruct (str_empty (n_generator_ w (n_generated w))).
      * now apply DeleteSession_lookup_ne.
      * rewrite lookup_insert_ne by assumption. now apply DeleteSession_lookup_ne.
Qed.

Lemma Open_frame_witness :
  Open 2 SimpleSession 100 (sample_session "" 0) (sample_world two_sessions)
  = Some (sample_session "T" 100,
          mkWorld (SharedMapSessionHandler.SaveSession (sample_session "T" 100)
                     two_sessions)
            sample_generator 1 [CallAll (sample_session "" 0); RemoveAll])
  /\ "B" <> token_ (sample_session "" 0)
  /\ sessions_ (mkWorld (SharedMapSessionHandler.SaveSession (sample_session "T" 100)
                           two_sessions)
                  sample_generator 1 [CallAll (sample_session "" 0); RemoveAll])
       !! "B"
     = sessions_ (sample_world two_sessions) !! "B".
Proof.
  assert (H : Open 2 SimpleSession 100 (sample_session "" 0) (sample_world two_sessions)
              = Some (sample_session "T" 100,
                      mkWorld (SharedMapSessionHandler.SaveSession
                                 (sample_session "T" 100) two_sessions)
                        sample_generator 1 [CallAll (sample_session "" 0); RemoveAll]))
    by reflexivity.
  split; [exact H |]. split; [discriminate |].
  apply (Open_frame _ _ _ _ _ _ _ "B" H); [discriminate |].
  simpl. intros i Hi. assert (i = 0%nat) as -> by lia. discriminate.
Defined.

(** ** The invariant of the map along the life cycle *)

Lemma store_inv_Close (this : Session) (w : World) :
  store_inv (sessions_ w) -> store_inv (sessions_ (Close this w)).
Proof. intros H. simpl. now apply store_inv_DeleteSession. Qed.

Lemma store_inv_Update_eq (k : variant) (now : Z) (this this' : Session)
    (w w' : World) :
  Update k now this w = (this', w') ->
  store_inv (sessions_ w) -> store_inv (sessions_ w').
Proof.
  intros Hu Hinv. pose proof (store_inv_Update k now this w Hinv) as H.
  now rewrite Hu in H.
Qed.

Lemma store_inv_Open (fuel : nat) (k : variant) (now : Z) (this this' : Session)
    (w w' : World) :
  Open fuel k now this w = Some (this', w') ->
  store_inv (sessions_ w) -> store_inv (sessions_ w').
Proof.
  revert this w. induction fuel as [| fuel IH]; intros this w; [discriminate |].
  case_taken this w.
  - intros H Hinv. apply (IH _ _ H). simpl. now apply store_inv_DeleteSession.
  - intros [= Hu] Hinv. apply (store_inv_Update_eq _ _ _ _ _ _ Hu).
    simpl. now apply store_inv_DeleteSession.
Qed.

Lemma LoadSession_cases (k : variant) (now : Z) (token : string)
    (this : Session) (w : World) :
  (exists this1, LoadSession k now token this w = (false, this1, w))
  \/ (exists this1, token_ this1 <> ""
                    /\ LoadSession k now token this w
                       = (true, SetUpdateTime now this1, snd (Update k now this1 w))).
Proof.
  unfold LoadSession. destruct (str_empty token); [left; eauto |].
  case_empty (token_ (SharedMapSessionHandler.LoadSession now token (sessions_ w) this)).
  - left. eauto.
  - right. eexists. split; [exact Hempty |].
    destruct k; reflexivity.
Qed.

Lemma store_inv_LoadSession (k : variant) (now : Z) (token : string)
    (this : Session) (w : World) :
  store_inv (sessions_ w) ->
  store_inv (sessions_ (snd (LoadSession k now token this w))).
Proof.
  intros Hinv.
  destruct (LoadSession_cases k now token this w) as [[this1 ->] | (this1 & _ & ->)].
  - exact Hinv.
  - simpl. now apply store_inv_Update.
Qed.

(** What [LoadSession(request)] comes down to: the instance gets the
    default token support if it has none, and the call either fails there
    or is a call of [LoadSession(token)]. *)
Lemma LoadSession_request_cases (k : variant) (now : Z) (request : http_request)
    (this : Session) (w : World) :
  let this0 := if str_empty (session_token_support_ this)
               then SetTokenSupport default_strings.session_second_token_support this
               else this in
  LoadSession_request k now request this w = (false, this0, w)
  \/ exists token, LoadSession_request k now request this w
                   = LoadSession k now token this0 w.
Proof.
  unfold LoadSession_request. simpl nth.
  set (this0 := if str_empty (session_token_support_ this)
                then SetTokenSupport default_strings.session_second_token_support this
                else this).
  simpl.
  destruct (String.eqb (session_token_support_ this0) entity_keys.session_json).
  - destruct (body_json request) as [[| | | | | fields] |]; try (now left).
    destruct (field_at (token_label_ this0) fields) as [[| | | token | |] |];
      try (now left).
    right. now exists token.
  - destruct (String.eqb (session_token_support_ this0) entity_keys.session_query);
      [| now left].
    destruct (scan_keys_and_values _ _ _) as [token |]; [| now left].
    right. now exists token.
Qed.

Lemma store_inv_LoadSession_request (k : variant) (now : Z) (request : http_request)
    (this : Session) (w : World) :
  store_inv (sessions_ w) ->
  store_inv (sessions_ (snd (LoadSession_request k now request this w))).
Proof.
  intros Hinv.
  destruct (LoadSession_request_cases k now request this w) as [-> | [token ->]].
  - exact Hinv.
  - now apply store_inv_LoadSession.
Qed.

Lemma store_inv_Open_response (fuel : nat) (k : variant) (now : Z)
    (response response' : http_response) (this this' : Session) (w w' : World) :
  Open_response fuel k now response this w = Some (this', w', response') ->
  store_inv (sessions_ w) -> store_inv (sessions_ w').
Proof.
  unfold Open_response.
  destruct (Open fuel k now this w) as [[this1 w1] |] eqn:Ho; [| discriminate].
  intros H Hinv.
  assert (w' = w1) as -> by (destruct (String.eqb _ _); now inversion H).
  now apply (store_inv_Open _ _ _ _ _ _ _ Ho).
Qed.

Lemma store_inv_LoadSession_request_response (trim : string -> string)
    (fuel : nat) (k : variant) (now : Z) (request : http_request)
    (response response' : http_response) (this this' : Session) (w w' : World)
    (found : bool) :
  LoadSession_request_response trim fuel k now request response this w
  = Some (found, this', w', response') ->
  store_inv (sessions_ w) -> store_inv (sessions_ w').
Proof.
  unfold LoadSession_request_response.
  set (this0 := if str_empty (session_token_support_ this) then _ else this).
  destruct (String.eqb (session_token_support_ this0) entity_keys.session_cookie).
  - destruct (ParseCookies trim request) as [cookies |]; [| discriminate].
    intros H Hinv.
    assert (Hl : forall r, r = match cookies !! token_label_ this0 with
                               | Some token => LoadSession k now token this0 w
                               | None => (false, this0, w)
                               end -> store_inv (sessions_ (snd r))).
    { intros r ->. destruct (cookies !! token_label_ this0) as [token |];
        [now apply store_inv_LoadSession | exact Hinv]. }
    destruct (match cookies !! token_label_ this0 with
              | Some token => LoadSession k now token this0 w
              | None => (false, this0, w)
              end) as [[session_exists this1] w1] eqn:Hr.
    specialize (Hl _ eq_refl). simpl in Hl.
    destruct session_exists.
    + now inversion H; subst.
    + destruct (Open_response fuel k now response this1 w1)
        as [[[this2 w2] response2] |] eqn:Ho; [| discriminate].
      inversion H; subst.
      now apply (store_inv_Open_response _ _ _ _ _ _ _ _ _ Ho).
  - intros H Hinv.
    pose proof (store_inv_LoadSession_request k now request this0 w Hinv) as Hr.
    destruct (LoadSession_request k now request this0 w) as [[f this1] w1].
    inversion H; subst. exact Hr.
Qed.

(** X7.  Every operation of a session keeps the invariant of the map:
    [Update], [Close], the three [LoadSession] and, when they return,
    [Open] and [LoadSession(request, response)]. *)
Theorem session_preserves_store_inv (trim : string -> string) (fuel : nat)
    (k : variant) (now : Z) (token : string) (request : http_request)
    (response : http_response) (this : Session) (w : World) :
  store_inv (sessions_ w) ->
  store_inv (sessions_ (snd (Update k now this w)))
  /\ store_inv (sessions_ (Close this w))
  /\ store_inv (sessions_ (snd (LoadSession k now token this w)))
  /\ store_inv (sessions_ (snd (LoadSession_request k now request this w)))
  /\ (forall this' w', Open fuel k now this w = Some (this', w') ->
                       store_inv (sessions_ w'))
  /\ (forall found this' w' response',
        LoadSession_request_response trim fuel k now request response this w
        = Some (found, this', w', response') ->
        store_inv (sessions_ w')).
Proof.
  intros Hinv.
  split; [now apply store_inv_Update |].
  split; [now apply store_inv_Close |].
  split; [now apply store_inv_LoadSession |].
  split; [now apply store_inv_LoadSession_request |].
  split.
  - intros this' w' H. now apply (store_inv_Open _ _ _ _ _ _ _ H).
  - intros found this' w' response' H.
    now apply (store_inv_LoadSession_request_response _ _ _ _ _ _ _ _ _ _ _ _ H).
Qed.

Lemma session_preserves_store_inv_witness :
  store_inv (sessions_ (sample_world two_sessions))
  /\ store_inv (sessions_ (Close (sample_session "B" 99) (sample_world two_sessions))).
Proof.
  assert (Hinv : store_inv (sessions_ (sample_world two_sessions)))
    by apply store_inv_SaveSession, store_inv_SaveSession, store_inv_empty.
  split; [exact Hinv |].
  destruct (session_preserves_store_inv (fun s => s) 2 SimpleSession 100 "B"
              (query_request "") (mkResponse ∅) (sample_session "B" 99)
              (sample_world two_sessions) Hinv) as (_ & H & _).
  exact H.
Defined.

(** ** Loading from a request *)

Lemma Update_keeps_entries (k : variant) (now : Z) (this : Session) (w : World)
    (token : string) :
  is_Some (sessions_ w !! token) ->
  is_Some (sessions_ (snd (Update k now this w)) !! token).
Proof.
  intros H. destruct k; [exact H | |]; simpl;
    unfold SharedMapSessionHandler.SaveSession; simpl;
    (destruct (str_empty (token_ this)); [exact H |]);
    (destruct (decide (token_ this = token)) as [<- | Hne];
     [rewrite lookup_insert_eq; eauto | now rewrite lookup_insert_ne]).
Qed.

Lemma LoadSession_quiet (k : variant) (now : Z) (token : string)
    (this : Session) (w : World) :
  trace (snd (LoadSession k now token this w)) = trace w
  /\ n_generated (snd (LoadSession k now token this w)) = n_generated w
  /\ n_generator_ (snd (LoadSession k now token this w)) = n_generator_ w
  /\ (forall t, is_Some (sessions_ w !! t) ->
                is_Some (sessions_ (snd (LoadSession k now token this w)) !! t))
  /\ (fst (fst (LoadSession k now token this w)) = false ->
      snd (LoadSession k now token this w) = w).
Proof.
  destruct (LoadSession_cases k now token this w) as [[this1 ->] | (this1 & _ & ->)].
  - repeat split; auto.
  - simpl. destruct (Update_generator k now this1 w) as [Hg Hn].
    repeat split; try assumption.
    + apply Update_trace.
    + intros t. apply Update_keeps_entries.
    + discriminate.
Qed.

(** X8.  [LoadSession(request)] opens and closes nothing: no callback is
    called, no role is removed, no token is generated and no entry leaves
    the map; when it returns [false], the world is as it was. *)
Theorem LoadSession_request_quiet (k : variant) (now : Z) (request : http_request)
    (this : Session) (w : World) :
  trace (snd (LoadSession_request k now request this w)) = trace w
  /\ n_generated (snd (LoadSession_request k now request this w)) = n_generated w
  /\ n_generator_ (snd (LoadSession_request k now request this w)) = n_generator_ w
  /\ (forall t, is_Some (sessions_ w !! t) ->
                is_Some (sessions_ (snd (LoadSession_request k now request this w)) !! t))
  /\ (fst (fst (LoadSession_request k now request this w)) = false ->
      snd (LoadSession_request k now request this w) = w).
Proof.
  destruct (LoadSession_request_cases k now request this w) as [-> | [token ->]].
  - repeat split; auto.
  - apply LoadSession_quiet.
Qed.


Lemma Update_saved (k : variant) (now : Z) (this this' : Session) (w w' : World) :
  Update k now this w = (this', w') ->
  k <> BaseSession -> token_ this' <> "" ->
  sessions_ w' !! token_ this' = Some this'.
Proof.
  intros Hu Hk Hne. rewrite Update_variant in Hu by assumption.
  injection Hu as <- <-. simpl in *.
  rewrite SaveSession_insert by (simpl; assumption). simpl.
  apply lookup_insert_eq.
Qed.

Lemma Open_ends_with_Update (fuel : nat) (k : variant) (now : Z)
    (this this' : Session) (w w' : World) :
  Open fuel k now this w = Some (this', w') ->
  exists this1 w1,
    Update k now this1 w1 = (this', w')
    /\ token_label_ this1 = token_label_ this
    /\ session_token_support_ this1 = session_token_support_ this.
Proof.
  revert this w. induction fuel as [| fuel IH]; intros this w; [discriminate |].
  case_taken this w.
  - intros H. destruct (IH _ _ H) as (this1 & w1 & Hu & Hl & Hs).
    exists this1, w1. now repeat split.
  - intros [= Hu]. eexists _, _. split; [exact Hu |]. now split.
Qed.




(** * Further properties of the handler *)

(** ** The sweep *)

Lemma trace_fold_Close (l : list Session) (w : World) :
  trace (fold_left (fun w' session => Close session w') l w)
  = (trace w ++ flat_map (fun session => [CallAll session; RemoveAll]) l)%list.
Proof.
  revert w. induction l as [| session l IH]; intros w; simpl.
  - now rewrite app_nil_r.
  - rewrite IH. simpl. now rewrite <- app_assoc.
Qed.

Lemma generator_fold_Close (l : list Session) (w : World) :
  n_generator_ (fold_left (fun w' session => Close session w') l w) = n_generator_ w
  /\ n_generated (fold_left (fun w' session => Close session w') l w) = n_generated w.
Proof.
  revert w. induction l as [| session l IH]; intros w; [now split |].
  simpl. destruct (IH (Close session w)) as [Hg Hn]. now split.
Qed.

Lemma NoDup_stored_sessions (m : gmap string Session) :
  store_inv m -> NoDup (snd <$> map_to_list m).
Proof.
  intros (_ & Hkey & _). apply NoDup_fmap_2_strong; [| apply NoDup_map_to_list].
  intros [k1 s1] [k2 s2] H1 H2 Heq. simpl in Heq. subst s2.
  apply elem_of_map_to_list in H1, H2.
  f_equal. rewrite <- (Hkey _ _ H1). now apply Hkey.
Qed.

Lemma delete_all_collected_lookup (now : Z) (m : gmap string Session)
    (collected : list Session) (token : string) :
  store_inv m ->
  (forall session, In session collected <-> In session (sessions_to_erase now m)) ->
  delete_all collected m !! token
  = match m !! token with
    | Some session => if IsGarbage now session then None else Some session
    | None => None
    end.
Proof.
  intros (Hnil & Hkey & _) Hsame.
  destruct (m !! token) as [session |] eqn:Hl;
    [| now apply delete_all_lookup_None].
  pose proof (Hkey _ _ Hl) as Htok.
  destruct (IsGarbage now session) eqn:Hg.
  - rewrite <- Htok. apply delete_all_lookup_erased.
    + apply Hsame, In_sessions_to_erase. split; [now exists token | exact Hg].
    + rewrite Htok. intros ->. congruence.
  - rewrite delete_all_lookup_kept; [exact Hl |].
    intros s' Hin Heq.
    apply Hsame, In_sessions_to_erase in Hin as [[token' Hl'] Hg'].
    pose proof (Hkey _ _ Hl') as Htok'.
    assert (token' = token) by congruence. subst token'. congruence.
Qed.

(** X10.  In whatever order the scan of a sweep collects the garbage
    sessions of the map, the second loop calls the close callbacks and
    removes the roles once for each stored session that is garbage, with the
    stored state of that session, in the order of the collection, and for no
    other session; and the map it leaves does not depend on that order: it
    is the map of [CleanSessions]. *)
Theorem CleanSessions_closes_each_once (now : Z) (w : World)
    (collected : list Session) :
  store_inv (sessions_ w) ->
  Permutation collected (sessions_to_erase now (sessions_ w)) ->
  trace (close_all collected w)
  = (trace w ++ flat_map (fun session => [CallAll session; RemoveAll]) collected)%list
  /\ NoDup collected
  /\ (forall session,
        In session collected
        <-> sessions_ w !! token_ session = Some session
            /\ IsGarbage now session = true)
  /\ sessions_ (close_all collected w) = sessions_ (CleanSessions now w).
Proof.
  intros Hinv Hperm.
  assert (Hsame : forall session,
            In session collected
            <-> In session (sessions_to_erase now (sessions_ w))).
  { intros session. split; apply Permutation_in;
      [exact Hperm | now apply Permutation_sym]. }
  split; [apply trace_fold_Close |]. split; [| split].
  - rewrite Hperm. unfold sessions_to_erase.
    apply NoDup_ListNoDup, List.NoDup_filter, NoDup_ListNoDup.
    now apply NoDup_stored_sessions.
  - intros session. rewrite Hsame, In_sessions_to_erase.
    destruct Hinv as (_ & Hkey & _). split.
    + intros [[token Hl] Hg]. split; [| exact Hg].
      now rewrite (Hkey _ _ Hl).
    + intros [Hl Hg]. split; [now exists (token_ session) | exact Hg].
  - unfold close_all. rewrite sessions_fold_Close, sessions_CleanSessions.
    apply map_eq. intros token.
    rewrite (delete_all_collected_lookup now _ collected) by assumption.
    rewrite (delete_all_collected_lookup now _ (sessions_to_erase now (sessions_ w)))
      by (assumption || reflexivity).
    reflexivity.
Qed.

Lemma CleanSessions_closes_each_once_witness :
  store_inv (sessions_ (sample_world two_sessions))
  /\ Permutation [sample_session "B" 99; sample_session "A" 0]
       (sessions_to_erase 200 (sessions_ (sample_world two_sessions)))
  /\ trace (close_all [sample_session "B" 99; sample_session "A" 0]
              (sample_world two_sessions))
     = [CallAll (sample_session "B" 99); RemoveAll;
        CallAll (sample_session "A" 0); RemoveAll]
  /\ sessions_ (close_all [sample_session "B" 99; sample_session "A" 0]
                  (sample_world two_sessions))
     = sessions_ (CleanSessions 200 (sample_world two_sessions)).
Proof.
  assert (Hinv : store_inv (sessions_ (sample_world two_sessions)))
    by apply store_inv_SaveSession, store_inv_SaveSession, store_inv_empty.
  assert (Hperm : Permutation [sample_session "B" 99; sample_session "A" 0]
                    (sessions_to_erase 200 (sessions_ (sample_world two_sessions))))
    by (vm_compute; apply perm_swap).
  split; [exact Hinv |]. split; [exact Hperm |].
  destruct (CleanSessions_closes_each_once 200 (sample_world two_sessions)
              [sample_session "B" 99; sample_session "A" 0] Hinv Hperm)
    as (Ht & _ & _ & Hm).
  split; [exact Ht | exact Hm].
Defined.

Lemma delete_all_erase_lookup (now : Z) (m : gmap string Session) (token : string) :
  store_inv m ->
  delete_all (sessions_to_erase now m) m !! token
  = match m !! token with
    | Some session => if IsGarbage now session then None else Some session
    | None => None
    end.
Proof.
  intros (Hnil & Hkey & _).
  destruct (m !! token) as [session |] eqn:Hl;
    [| now apply delete_all_lookup_None].
  pose proof (Hkey _ _ Hl) as Htok.
  destruct (IsGarbage now session) eqn:Hg.
  - rewrite <- Htok. apply delete_all_lookup_erased.
    + apply In_sessions_to_erase. split; [now exists token | exact Hg].
    + rewrite Htok. intros ->. congruence.
  - rewrite delete_all_lookup_kept; [exact Hl |].
    intros s' Hin Heq. apply In_sessions_to_erase in Hin as [[token' Hl'] Hg'].
    pose proof (Hkey _ _ Hl') as Htok'.
    assert (token' = token) by congruence. subst token'. congruence.
Qed.

Lemma sessions_to_erase_nil (now : Z) (m : gmap string Session) :
  (forall token session, m !! token = Some session -> IsGarbage now session = false) ->
  sessions_to_erase now m = [].
Proof.
  intros H. destruct (sessions_to_erase now m) as [| s l] eqn:He; [reflexivity |].
  assert (Hin : In s (sessions_to_erase now m)) by (rewrite He; now left).
  apply In_sessions_to_erase in Hin as [[token Hl] Hg].
  rewrite (H _ _ Hl) in Hg. discriminate.
Qed.

(** X11.  After a sweep every session of the map is valid at the time of
    the sweep; a sweep over a map without garbage changes nothing in the
    world; hence a second sweep at the same time changes nothing. *)
Theorem CleanSessions_leaves_valid_sessions (now : Z) (w : World) :
  store_inv (sessions_ w) ->
  (forall token session,
     sessions_ (CleanSessions now w) !! token = Some session ->
     IsValid now session = true)
  /\ ((forall token session,
         sessions_ w !! token = Some session -> IsGarbage now session = false) ->
      CleanSessions now w = w)
  /\ CleanSessions now (CleanSessions now w) = CleanSessions now w.
Proof.
  intros Hinv.
  assert (Hvalid : forall token session,
            sessions_ (CleanSessions now w) !! token = Some session ->
            IsGarbage now session = false).
  { intros token session. rewrite sessions_CleanSessions.
    rewrite delete_all_erase_lookup by assumption.
    destruct (sessions_ w !! token) as [s |]; [| discriminate].
    destruct (IsGarbage now s) eqn:Hg; [discriminate |]. now intros [= <-]. }
  assert (Hnone : forall w0 : World,
            (forall token session,
               sessions_ w0 !! token = Some session -> IsGarbage now session = false) ->
            CleanSessions now w0 = w0).
  { intros w0 H. unfold CleanSessions. now rewrite sessions_to_erase_nil. }
  split; [| split].
  - intros token session Hl. apply Hvalid in Hl.
    unfold IsGarbage in Hl. now apply negb_false_iff in Hl.
  - apply Hnone.
  - now apply Hnone.
Qed.

Lemma CleanSessions_leaves_valid_sessions_witness :
  store_inv (sessions_ (sample_world two_sessions))
  /\ CleanSessions 100 (CleanSessions 100 (sample_world two_sessions))
     = CleanSessions 100 (sample_world two_sessions).
Proof.
  assert (Hinv : store_inv (sessions_ (sample_world two_sessions)))
    by apply store_inv_SaveSession, store_inv_SaveSession, store_inv_empty.
  split; [exact Hinv |].
  destruct (CleanSessions_leaves_valid_sessions 100 (sample_world two_sessions) Hinv)
    as (_ & _ & H).
  exact H.
Defined.

(** ** Save, look up, delete *)

Lemma Session_set_eq (session this : Session) : Session_set session this = session.
Proof. now destruct session. Qed.

(** X12.  The handler's map gives back what was saved: a session with a
    token that is saved exists, and is loaded into any instance as long as
    it is valid; after [DeleteSession] it does not exist; and deleting a
    session just saved under a token that was not in the map restores the
    map. *)
Theorem SaveSession_round_trip (now : Z) (session virgin : Session)
    (m : gmap string Session) :
  (token_ session <> "" ->
   SharedMapSessionHandler.SessionExists (token_ session)
     (SharedMapSessionHandler.SaveSession session m) = true
   /\ (IsValid now session = true ->
       SharedMapSessionHandler.LoadSession now (token_ session)
         (SharedMapSessionHandler.SaveSession session m) virgin = session))
  /\ SharedMapSessionHandler.SessionExists (token_ session)
       (SharedMapSessionHandler.DeleteSession session m) = false
  /\ (m !! token_ session = None ->
      SharedMapSessionHandler.DeleteSession session
        (SharedMapSessionHandler.SaveSession session m) = m).
Proof.
  split; [| split].
  - intros Hne.
    assert (Hl : SharedMapSessionHandler.SaveSession session m !! token_ session
                 = Some session)
      by (rewrite SaveSession_insert by assumption; apply lookup_insert_eq).
    split.
    + apply SessionExists_true. split; [assumption | now exists session].
    + intros Hv.
      rewrite (handler_LoadSession_found now _ _ session) by assumption.
      apply Session_set_eq.
  - apply SessionExists_false.
    destruct (decide (token_ session = "")) as [He | Hne]; [now left | right].
    rewrite DeleteSession_delete by assumption. apply lookup_delete_eq.
  - intros Hnone. destruct (decide (token_ session = "")) as [He | Hne].
    + now rewrite SaveSession_empty, DeleteSession_empty.
    + rewrite SaveSession_insert, DeleteSession_delete by assumption.
      rewrite delete_insert_eq. now apply delete_id.
Qed.

Lemma SaveSession_round_trip_witness :
  token_ (sample_session "T" 10) <> ""
  /\ IsValid 12 (sample_session "T" 10) = true
  /\ SharedMapSessionHandler.LoadSession 12 (token_ (sample_session "T" 10))
       (SharedMapSessionHandler.SaveSession (sample_session "T" 10) two_sessions)
       (sample_session "" 0)
     = sample_session "T" 10.
Proof.
  split; [simpl; discriminate |]. split; [reflexivity |].
  destruct (SaveSession_round_trip 12 (sample_session "T" 10) (sample_session "" 0)
              two_sessions) as (H & _).
  destruct H as [_ H]; [simpl; discriminate |].
  apply H. reflexivity.
Defined.

(** * Properties of the parser *)

(** ** Cookies *)

Lemma search_delimiter_Some (s name content : string) :
  search_delimiter s = Some (name, content) ->
  s = name ++ "=" ++ content /\ ~ In "="%char (list_ascii_of_string name).
Proof.
  revert name content. induction s as [| c s IH]; intros name content; [discriminate |].
  simpl. destruct (Ascii.eqb_spec c "="%char) as [-> | Hne].
  - intros [= <- <-]. split; [reflexivity | intros []].
  - destruct (search_delimiter s) as [[n ct] |]; [| discriminate].
    intros [= <- <-]. destruct (IH n ct eq_refl) as [-> Hn].
    split; [reflexivity |].
    simpl. intros [Hc | Hin]; [now apply Hne | now apply Hn].
Qed.

Lemma fold_parse_cookie_None (trim : string -> string) (items : list string) :
  fold_left (parse_cookie trim) items None = None.
Proof. induction items as [| item items IH]; [reflexivity | exact IH]. Qed.

Lemma map_insert_new_lookup (key value name : string) (m : gmap string string) :
  map_insert_new key value m !! name
  = match m !! name with
    | Some old => Some old
    | None => if String.eqb key name then Some value else None
    end.
Proof.
  unfold map_insert_new. destruct (String.eqb_spec key name) as [-> | Hne].
  - destruct (m !! name) eqn:Hl; [now rewrite Hl |].
    now rewrite lookup_insert_eq.
  - destruct (m !! key) eqn:Hk; [now destruct (m !! name) |].
    rewrite lookup_insert_ne by assumption. now destruct (m !! name).
Qed.

Lemma fold_parse_cookie_lookup (trim : string -> string) (items : list string)
    (acc cookies : gmap string string) (name : string) :
  fold_left (parse_cookie trim) items (Some acc) = Some cookies ->
  cookies !! name
  = match acc !! name with
    | Some content => Some content
    | None => first_cookie trim name items
    end.
Proof.
  revert acc. induction items as [| item items IH]; intros acc; simpl.
  - intros [= <-]. now destruct (acc !! name).
  - destruct (search_delimiter (trim item)) as [[n c] |].
    + intros H. rewrite (IH _ H), map_insert_new_lookup.
      destruct (acc !! name); [reflexivity |].
      now destruct (String.eqb n name).
    + now rewrite fold_parse_cookie_None.
Qed.

Lemma first_cookie_Some (trim : string -> string) (name content : string)
    (items : list string) :
  first_cookie trim name items = Some content ->
  exists item, In item items /\ search_delimiter (trim item) = Some (name, content).
Proof.
  induction items as [| item items IH]; [discriminate |]. simpl.
  destruct (search_delimiter (trim item)) as [[n c] |] eqn:Hs.
  - destruct (String.eqb_spec n name) as [-> | Hne].
    + intros [= <-]. exists item. split; [now left | exact Hs].
    + intros H. destruct (IH H) as (it & Hin & Hit). exists it. split; [now right | exact Hit].
  - intros H. destruct (IH H) as (it & Hin & Hit). exists it. split; [now right | exact Hit].
Qed.

(** X13.  What [ParseCookies] returns, when it has a result: without a
    cookie header, no cookie; otherwise, under each name, the content of
    the first item of the header with that name.  A cookie of the result
    comes from an item that, trimmed, reads [name=content], where the name
    holds no ["="]. *)
Theorem ParseCookies_first_item_wins (trim : string -> string)
    (request : http_request) (cookies : gmap string string) (name : string) :
  ParseCookies trim request = Some cookies ->
  cookies !! name
  = match cookie_header request with
    | Some cookies_str => first_cookie trim name (split cookies_str ";")
    | None => None
    end
  /\ (forall content,
        cookies !! name = Some content ->
        exists cookies_str item,
          cookie_header request = Some cookies_str
          /\ In item (split cookies_str ";")
          /\ trim item = name ++ "=" ++ content
          /\ ~ In "="%char (list_ascii_of_string name)).
Proof.
  unfold ParseCookies. intros H.
  assert (Hfirst : cookies !! name
                   = match cookie_header request with
                     | Some cookies_str => first_cookie trim name (split cookies_str ";")
                     | None => None
                     end).
  { destruct (cookie_header request) as [cookies_str |].
    - rewrite (fold_parse_cookie_lookup _ _ _ _ name H). now rewrite lookup_empty.
    - injection H as <-. apply lookup_empty. }
  split; [exact Hfirst |].
  intros content Hc. rewrite Hfirst in Hc.
  destruct (cookie_header request) as [cookies_str |]; [| discriminate].
  destruct (first_cookie_Some _ _ _ _ Hc) as (item & Hin & Hs).
  apply search_delimiter_Some in Hs as [Heq Hname].
  now exists cookies_str, item.
Qed.

Lemma ParseCookies_first_item_wins_witness :
  ParseCookies (fun s => s) (mkRequest (Some "token=T;a=1;token=U") "" None)
  = Some (map_insert_new "a" "1" (map_insert_new "token" "T" ∅))
  /\ map_insert_new "a" "1" (map_insert_new "token" "T" ∅) !! "token" = Some "T".
Proof.
  assert (H : ParseCookies (fun s => s)
                (mkRequest (Some "token=T;a=1;token=U") "" None)
              = Some (map_insert_new "a" "1" (map_insert_new "token" "T" ∅)))
    by reflexivity.
  split; [exact H |].
  destruct (ParseCookies_first_item_wins _ _ _ "token" H) as [Hl _].
  rewrite Hl. reflexivity.
Defined.

(** ** Query strings *)

Lemma parse_keys_and_values_lookup (keys_and_values : list string) (len : nat)
    (acc parsed_query : gmap string string) (key : string) :
  parse_keys_and_values keys_and_values len acc = Some parsed_query ->
  parsed_query !! key
  = match acc !! key with
    | Some value => Some value
    | None =>
        match scan_keys_and_values key keys_and_values len with
        | Some value => uri_decode value
        | None => None
        end
    end.
Proof.
  revert acc. induction len as [| len IH]; intros acc.
  - simpl. intros [= <-]. now destruct (acc !! key).
  - rewrite scan_keys_and_values_S. unfold token_of_pair. simpl.
    destruct (1 <? length (split (nth len keys_and_values "") "="))%nat; simpl.
    + destruct (uri_decode (nth 1 (split (nth len keys_and_values "") "=") ""))
        as [value |] eqn:Hd; [| discriminate].
      intros H. rewrite (IH _ H), map_insert_new_lookup.
      destruct (acc !! key); [reflexivity |].
      destruct (String.eqb (nth 0 (split (nth len keys_and_values "") "=") "") key);
        [now rewrite Hd | reflexivity].
    + apply IH.
Qed.

Lemma scan_keys_and_values_none (token_label : string)
    (keys_and_values : list string) (len : nat) :
  (forall i, (i < len)%nat ->
             token_of_pair token_label (nth i keys_and_values "") = None) ->
  scan_keys_and_values token_label keys_and_values len = None.
Proof.
  intros Hnone.
  destruct (scan_keys_and_values token_label keys_and_values len) as [token |] eqn:Hs;
    [| reflexivity].
  apply scan_keys_and_values_Some in Hs as (i & Hi & Hp).
  rewrite (Hnone i Hi) in Hp. discriminate.
Qed.

(** X14.  What [ParseQueryString] returns, when it returns.  A pair counts
    for a key when it splits at ["="] into more than one item, the first of
    them the key as it stands; its value is the second item.  Under each
    key the map holds the percent-decoded value of the pair at the greatest
    position that counts for the key, whatever pairs with that key and no
    value come after it, and the map has no entry for a key for which no
    pair counts.  That pair is the one that the query flow of
    [LoadSession(request)] takes its token from. *)
Theorem ParseQueryString_decodes_last_value (query_string key : string)
    (parsed_query : gmap string string) :
  ParseQueryString query_string = Some parsed_query ->
  parsed_query !! key
  = match query_token key query_string with
    | Some value => uri_decode value
    | None => None
    end
  /\ (forall i value,
        (i < length (split query_string "&"))%nat ->
        token_of_pair key (nth i (split query_string "&") "") = Some value ->
        (forall j, (i < j < length (split query_string "&"))%nat ->
                   token_of_pair key (nth j (split query_string "&") "") = None) ->
        parsed_query !! key = uri_decode value)
  /\ ((forall i, (i < length (split query_string "&"))%nat ->
                 token_of_pair key (nth i (split query_string "&") "") = None) ->
      parsed_query !! key = None).
Proof.
  intros H.
  assert (Hlookup : parsed_query !! key
                    = match query_token key query_string with
                      | Some value => uri_decode value
                      | None => None
                      end).
  { revert H. unfold ParseQueryString, query_token.
    case_empty query_string.
    - subst query_string. intros [= <-]. simpl. apply lookup_empty.
    - intros H. rewrite (parse_keys_and_values_lookup _ _ _ _ key H).
      now rewrite lookup_empty. }
  split; [exact Hlookup |]. split.
  - intros i value Hi Hp Hlater. rewrite Hlookup. unfold query_token.
    now rewrite (scan_keys_and_values_last _ _ _ i value Hi Hp Hlater).
  - intros Hnone. rewrite Hlookup. unfold query_token.
    now rewrite scan_keys_and_values_none.
Qed.

Lemma ParseQueryString_decodes_last_value_witness :
  ParseQueryString "b=%41&a=1&b"
  = Some (map_insert_new "b" "A" (map_insert_new "a" "1" ∅))
  /\ token_of_pair "b" (nth 0 (split "b=%41&a=1&b" "&") "") = Some "%41"
  /\ token_of_pair "b" (nth 2 (split "b=%41&a=1&b" "&") "") = None
  /\ map_insert_new "b" "A" (map_insert_new "a" "1" ∅) !! "b" = uri_decode "%41".
Proof.
  assert (H : ParseQueryString "b=%41&a=1&b"
              = Some (map_insert_new "b" "A" (map_insert_new "a" "1" ∅)))
    by reflexivity.
  split; [exact H |]. split; [reflexivity |]. split; [reflexivity |].
  destruct (ParseQueryString_decodes_last_value _ "b" _ H) as (_ & Hlast & _).
  apply (Hlast 0%nat "%41").
  - simpl. lia.
  - reflexivity.
  - simpl. intros j Hj.
    assert (j = 1%nat \/ j = 2%nat) as [-> | ->] by lia; reflexivity.
Defined.

Lemma parse_keys_and_values_None (keys_and_values : list string) (len : nat)
    (acc : gmap string string) :
  parse_keys_and_values keys_and_values len acc = None
  <-> exists i, (i < len)%nat
        /\ (1 < length (split (nth i keys_and_values "") "="))%nat
        /\ uri_decode (nth 1 (split (nth i keys_and_values "") "=") "") = None.
Proof.
  revert acc. induction len as [| len IH]; intros acc.
  - simpl. split; [discriminate | intros (i & Hi & _); lia].
  - simpl.
    destruct (Nat.ltb_spec 1 (length (split (nth len keys_and_values "") "=")))
      as [Hlen | Hlen].
    + destruct (uri_decode (nth 1 (split (nth len keys_and_values "") "=") ""))
        as [value |] eqn:Hd.
      * rewrite IH. split.
        -- intros (i & Hi & H). exists i. split; [lia | exact H].
        -- intros (i & Hi & Hl & H).
           destruct (decide (i = len)) as [-> | Hne]; [congruence |].
           exists i. split; [lia | now split].
      * split; [| reflexivity]. intros _. exists len. split; [lia | now split].
    + rewrite IH. split.
      * intros (i & Hi & H). exists i. split; [lia | exact H].
      * intros (i & Hi & Hl & H).
        destruct (decide (i = len)) as [-> | Hne]; [lia |].
        exists i. split; [lia | now split].
Qed.

(** X15.  [ParseQueryString] lets the exception of [web::uri::decode]
    through exactly when some pair of the query string has a value that
    cannot be decoded, whatever its key; otherwise it returns a map. *)
Theorem ParseQueryString_throws (query_string : string) :
  ParseQueryString query_string = None
  <-> exists pair, In pair (split query_string "&")
        /\ (1 < length (split pair "="))%nat
        /\ uri_decode (nth 1 (split pair "=") "") = None.
Proof.
  unfold ParseQueryString. case_empty query_string.
  - subst query_string. split; [discriminate | intros (pair & [] & _)].
  - rewrite parse_keys_and_values_None. split.
    + intros (i & Hi & Hl & Hd).
      exists (nth i (split query_string "&") ""). split; [now apply nth_In | now split].
    + intros (pair & Hin & Hl & Hd).
      destruct (In_nth _ _ "" Hin) as (i & Hi & <-). now exists i.
Qed.

(** * Opening, then loading *)

Lemma LoadSession_stored (k : variant) (now : Z) (session other : Session)
    (w : World) :
  k <> BaseSession ->
  token_ session <> "" ->
  sessions_ w !! token_ session = Some session ->
  IsValid now session = true ->
  LoadSession k now (token_ session) other w
  = (true, SetUpdateTime now session,
     with_sessions (SharedMapSessionHandler.SaveSession (SetUpdateTime now session)
                      (sessions_ w)) w).
Proof.
  intros Hk Hne Hl Hv. unfold LoadSession.
  assert (He : str_empty (token_ session) = false) by now apply str_empty_false.
  rewrite He.
  rewrite (handler_LoadSession_found now _ _ session) by assumption.
  rewrite Session_set_eq, He.
  now rewrite (Update_variant k now) by assumption.
Qed.

(** X16.  The session that [Open] returns for [SimpleSession] or
    [StorageSession], when it has a token, is loaded again under that token
    by any instance at any time at which it has not timed out; at the time
    of the call of [Open] the load succeeds and changes nothing. *)
Theorem Open_then_LoadSession (fuel : nat) (k : variant) (now later : Z)
    (this this' other : Session) (w w' : World) :
  Open fuel k now this w = Some (this', w') ->
  k <> BaseSession ->
  token_ this' <> "" ->
  (session_timeout_ this < 0 \/ later - now <= session_timeout_ this ->
   LoadSession k later (token_ this') other w'
   = (true, SetUpdateTime later this',
      with_sessions (SharedMapSessionHandler.SaveSession (SetUpdateTime later this')
                       (sessions_ w')) w'))
  /\ LoadSession k now (token_ this') other w' = (true, this', w').
Proof.
  intros Ho Hk Hne.
  destruct (Open_ends_with_Update _ _ _ _ _ _ _ Ho) as (s1 & w1 & Hu & _ & _).
  pose proof (Update_saved _ _ _ _ _ _ Hu Hk Hne) as Hl.
  destruct (Update_inv _ _ _ _ _ _ Hu) as (Hthis & _ & _).
  assert (Htimeout : session_timeout_ this' = session_timeout_ this).
  { clear - Ho. revert this w Ho.
    induction fuel as [| fuel IH]; intros this w; [discriminate |].
    case_taken this w.
    - intros H. now rewrite (IH _ _ H).
    - intros [= Hu]. apply Update_inv in Hu as (-> & _). reflexivity. }
  assert (Htime : update_time_ this' = now) by now subst this'.
  assert (Hload : forall t, session_timeout_ this < 0 \/ t - now <= session_timeout_ this ->
            LoadSession k t (token_ this') other w'
            = (true, SetUpdateTime t this',
               with_sessions (SharedMapSessionHandler.SaveSession
                                (SetUpdateTime t this') (sessions_ w')) w')).
  { intros t Ht. apply LoadSession_stored; try assumption.
    apply IsValid_true. now rewrite Htimeout, Htime. }
  split; [apply Hload |].
  rewrite Hload
    by (destruct (Z_lt_dec (session_timeout_ this) 0); [now left | right; lia]).
  assert (Hsame : SetUpdateTime now this' = this') by now subst this'.
  rewrite Hsame, SaveSession_insert by assumption.
  rewrite insert_id by assumption. now destruct w'.
Qed.

Lemma Open_then_LoadSession_witness :
  Open 2 SimpleSession 100 (sample_session "" 0) (sample_world one_session)
  = Some (sample_session "U" 100,
          mkWorld (SharedMapSessionHandler.SaveSession (sample_session "U" 100) ∅)
            sample_generator 2
            [CallAll (sample_session "" 0); RemoveAll;
             CallAll (sample_session "T" 0); RemoveAll])
  /\ SimpleSession <> BaseSession
  /\ token_ (sample_session "U" 100) <> ""
  /\ LoadSession SimpleSession 100 (token_ (sample_session "U" 100))
       (sample_session "" 0)
       (mkWorld (SharedMapSessionHandler.SaveSession (sample_session "U" 100) ∅)
          sample_generator 2
          [CallAll (sample_session "" 0); RemoveAll;
           CallAll (sample_session "T" 0); RemoveAll])
     = (true, sample_session "U" 100,
        mkWorld (SharedMapSessionHandler.SaveSession (sample_session "U" 100) ∅)
          sample_generator 2
          [CallAll (sample_session "" 0); RemoveAll;
           CallAll (sample_session "T" 0); RemoveAll]).
Proof.
  assert (H : Open 2 SimpleSession 100 (sample_session "" 0) (sample_world one_session)
              = Some (sample_session "U" 100,
                      mkWorld (SharedMapSessionHandler.SaveSession
                                 (sample_session "U" 100) ∅)
                        sample_generator 2
                        [CallAll (sample_session "" 0); RemoveAll;
                         CallAll (sample_session "T" 0); RemoveAll]))
    by reflexivity.
  assert (Hk : SimpleSession <> BaseSession) by discriminate.
  assert (Hne : token_ (sample_session "U" 100) <> "") by (simpl; discriminate).
  split; [exact H |]. split; [exact Hk |]. split; [exact Hne |].
  destruct (Open_then_LoadSession 2 SimpleSession 100 100 (sample_session "" 0)
              (sample_session "U" 100) (sample_session "" 0)
              (sample_world one_session) _ H Hk Hne) as [_ Hnow].
  exact Hnow.
Defined.

(** X17.  Whenever [LoadSession(token)] reports success, on any instance
    and any map, the instance has a token and is valid at the time of the
    call, and for [SimpleSession] and [StorageSession] it is the entry of
    the map under its token; nothing has left the map. *)
Theorem LoadSession_success (k : variant) (now : Z) (token : string)
    (this this' : Session) (w w' : World) :
  LoadSession k now token this w = (true, this', w') ->
  token <> ""
  /\ token_ this' <> ""
  /\ update_time_ this' = now
  /\ IsValid now this' = true
  /\ (k <> BaseSession -> sessions_ w' !! token_ this' = Some this')
  /\ (forall t, is_Some (sessions_ w !! t) -> is_Some (sessions_ w' !! t)).
Proof.
  intros H.
  assert (Htoken : token <> "").
  { intros ->. rewrite LoadSession_empty_token in H. discriminate. }
  split; [exact Htoken |].
  destruct (LoadSession_cases k now token this w) as [[s1 Hf] | (s1 & Hne & Hs)].
  - rewrite Hf in H. discriminate.
  - rewrite Hs in H. injection H as <- <-.
    split; [exact Hne |]. split; [reflexivity |].
    split.
    { apply IsValid_true. simpl.
      destruct (Z_lt_dec (session_timeout_ s1) 0); [now left | right; lia]. }
    split.
    + intros Hk. apply (Update_saved k now s1 _ w); [| assumption | assumption].
      now rewrite (Update_variant k now) by assumption.
    + intros t. apply Update_keeps_entries.
Qed.

Lemma LoadSession_success_witness :
  LoadSession SimpleSession 100 "B" (sample_session "" 0) (sample_world two_sessions)
  = (true, sample_session "B" 100,
     sample_world (SharedMapSessionHandler.SaveSession (sample_session "B" 100)
                     two_sessions))
  /\ IsValid 100 (sample_session "B" 100) = true.
Proof.
  assert (H : LoadSession SimpleSession 100 "B" (sample_session "" 0)
                (sample_world two_sessions)
              = (true, sample_session "B" 100,
                 sample_world (SharedMapSessionHandler.SaveSession
                                 (sample_session "B" 100) two_sessions)))
    by reflexivity.
  split; [exact H |].
  destruct (LoadSession_success _ _ _ _ _ _ _ H) as (_ & _ & _ & Hv & _).
  exact Hv.
Defined.

(** * What Open removes from the map *)

Lemma Update_lookup_ne (k : variant) (now : Z) (this this' : Session)
    (w w' : World) (token : string) :
  Update k now this w = (this', w') ->
  token <> token_ this' ->
  sessions_ w' !! token = sessions_ w !! token.
Proof.
  intros Hu Hne. destruct k; simpl in Hu; injection Hu as <- <-;
    [reflexivity | |]; simpl in *;
    unfold SharedMapSessionHandler.SaveSession; simpl;
    (destruct (str_empty (token_ this)); [reflexivity |]);
    now rewrite lookup_insert_ne.
Qed.

Lemma Open_keeps_absent (fuel : nat) (k : variant) (now : Z) (this this' : Session)
    (w w' : World) (token : string) :
  Open fuel k now this w = Some (this', w') ->
  SharedMapSessionHandler.DeleteSession this (sessions_ w) !! token = None ->
  token <> token_ this' ->
  sessions_ w' !! token = None.
Proof.
  revert this w. induction fuel as [| fuel IH]; intros this w; [discriminate |].
  case_taken this w.
  - intros H Habs Hne. apply (IH _ _ H); [| exact Hne].
    simpl. now apply DeleteSession_lookup_None.
  - intros [= Hu] Habs Hne.
    rewrite (Update_lookup_ne _ _ _ _ _ _ token Hu Hne). exact Habs.
Qed.

(** X18.  When [Open] returns, the map has no entry left under the token
    the session had before the call, nor under any token generated during
    the call, other than the token of the session returned: the entries of
    the tokens that were found taken have been erased. *)
Theorem Open_erases (fuel : nat) (k : variant) (now : Z) (this this' : Session)
    (w w' : World) :
  Open fuel k now this w = Some (this', w') ->
  (token_ this <> "" -> token_ this <> token_ this' ->
   sessions_ w' !! token_ this = None)
  /\ (forall i, (n_generated w <= i < n_generated w')%nat ->
                n_generator_ w i <> token_ this' ->
                sessions_ w' !! n_generator_ w i = None).
Proof.
  intros Ho. split.
  - intros Hne Hdiff. apply (Open_keeps_absent _ _ _ _ _ _ _ _ Ho); [| exact Hdiff].
    rewrite DeleteSession_delete by assumption. apply lookup_delete_eq.
  - revert this w Ho. induction fuel as [| fuel IH]; intros this w; [discriminate |].
    case_taken this w.
    + intros H i Hi Hdiff.
      apply SessionExists_true in Hex as [Hne _].
      destruct (decide (i = n_generated w)) as [-> | Hi'].
      * apply (Open_keeps_absent _ _ _ _ _ _ _ _ H); [| exact Hdiff].
        rewrite DeleteSession_delete by (simpl; assumption). simpl.
        apply lookup_delete_eq.
      * apply (IH _ _ H i); [simpl; lia | exact Hdiff].
    + intros [= Hu] i Hi Hdiff.
      destruct (Update_inv _ _ _ _ _ _ Hu) as (Hthis & _ & Hn). simpl in Hn.
      assert (i = n_generated w) as -> by lia.
      subst this'. simpl in Hdiff. contradiction.
Qed.

Lemma Open_erases_witness :
  Open 2 SimpleSession 100 (sample_session "B" 99) (sample_world two_sessions)
  = Some (sample_session "T" 100,
          mkWorld (SharedMapSessionHandler.SaveSession (sample_session "T" 100)
                     (SharedMapSessionHandler.DeleteSession (sample_session "B" 99)
                        two_sessions))
            sample_generator 1 [CallAll (sample_session "B" 99); RemoveAll])
  /\ token_ (sample_session "B" 99) <> ""
  /\ token_ (sample_session "B" 99) <> token_ (sample_session "T" 100)
  /\ sessions_
       (mkWorld (SharedMapSessionHandler.SaveSession (sample_session "T" 100)
                   (SharedMapSessionHandler.DeleteSession (sample_session "B" 99)
                      two_sessions))
          sample_generator 1 [CallAll (sample_session "B" 99); RemoveAll])
       !! token_ (sample_session "B" 99) = None.
Proof.
  assert (H : Open 2 SimpleSession 100 (sample_session "B" 99)
                (sample_world two_sessions)
              = Some (sample_session "T" 100,
                      mkWorld (SharedMapSessionHandler.SaveSession
                                 (sample_session "T" 100)
                                 (SharedMapSessionHandler.DeleteSession
                                    (sample_session "B" 99) two_sessions))
                        sample_generator 1
                        [CallAll (sample_session "B" 99); RemoveAll]))
    by reflexivity.
  assert (Hne : token_ (sample_session "B" 99) <> "") by (simpl; discriminate).
  assert (Hdiff : token_ (sample_session "B" 99) <> token_ (sample_session "T" 100))
    by (simpl; discriminate).
  split; [exact H |]. split; [exact Hne |]. split; [exact Hdiff |].
  destruct (Open_erases _ _ _ _ _ _ _ H) as [Hold _].
  now apply Hold.
Defined.

(** * Outside the cookie flow *)

(** X19.  When the token support of the instance is not [cookie],
    [LoadSession(request, response)] always returns, and it opens nothing:
    the response is as it was, no token is generated, nothing is closed, no
    entry leaves the map, and when the result is [false] the world is as it
    was. *)
Theorem LoadSession_request_response_without_cookie (trim : string -> string)
    (fuel : nat) (k : variant) (now : Z) (request : http_request)
    (response : http_response) (this : Session) (w : World) :
  session_token_support_ this <> entity_keys.session_cookie ->
  exists found this' w',
    LoadSession_request_response trim fuel k now request response this w
    = Some (found, this', w', response)
    /\ trace w' = trace w
    /\ n_generated w' = n_generated w
    /\ (forall t, is_Some (sessions_ w !! t) -> is_Some (sessions_ w' !! t))
    /\ (found = false -> w' = w).
Proof.
  intros Hsup. unfold LoadSession_request_response.
  set (this0 := if str_empty (session_token_support_ this)
                then SetTokenSupport (nth 0 DEFAULT_SESSIONS_TOKEN_SUPPORT "") this
                else this).
  assert (Hno : String.eqb (session_token_support_ this0) entity_keys.session_cookie
                = false).
  { unfold this0. destruct (str_empty (session_token_support_ this));
      [reflexivity | now apply String.eqb_neq]. }
  rewrite Hno.
  destruct (LoadSession_request_cases k now request this0 w) as [-> | [token ->]].
  - eexists _, _, _. split; [reflexivity |]. repeat split; auto.
  - destruct (LoadSession_quiet k now token
                (if str_empty (session_token_support_ this0)
                 then SetTokenSupport default_strings.session_second_token_support this0
                 else this0) w) as (Ht & Hn & _ & He & Hf).
    destruct (LoadSession k now token _ w) as [[found this'] w'].
    exists found, this', w'. split; [reflexivity |]. now repeat split.
Qed.

Lemma LoadSession_request_response_without_cookie_witness :
  session_token_support_ (query_session "token") <> entity_keys.session_cookie
  /\ exists found this' w',
       LoadSession_request_response (fun s => s) 0 SimpleSession 100
         (mkRequest (Some "token=B") "token=A" None) (mkResponse ∅)
         (query_session "token") (sample_world two_sessions)
       = Some (found, this', w', mkResponse ∅)
       /\ trace w' = trace (sample_world two_sessions).
Proof.
  assert (H : session_token_support_ (query_session "token")
              <> entity_keys.session_cookie) by discriminate.
  split; [exact H |].
  destruct (LoadSession_request_response_without_cookie (fun s => s) 0 SimpleSession
              100 (mkRequest (Some "token=B") "token=A" None) (mkResponse ∅)
              (query_session "token") (sample_world two_sessions) H)
    as (found & this' & w' & Hr & Ht & _).
  now exists found, this', w'.
Defined.
